(** * system_update.py: the source registry and reconciliation engine

    A shallow embedding of [src/system_update.py]: the canonical record
    ([AppInfo]), the process invoker ([run_command]), the per-source update
    checkers and the reconciliation pass ([UpdateChecker]), the snapshot cache
    ([CacheManager]), the update executor ([UpdateExecutor]), the merge step
    of [SystemUpdateApp.run], the scanners of [PackageScanner] that read
    text, the settings merge of [SystemConfig] and
    [SystemUpdateApp._handle_single_update].

    Conventions.
    - A Python [str] is a [string] of bytes (its UTF-8 encoding); the
      character classes below are the ASCII ones.  Byte-wise lexicographic
      order on UTF-8 text is the code-point order Python compares with.
    - The record is typed as the dataclass declares it.  [None] in a field
      annotated [Optional[str]] is [None]; [latest_version] is a [string],
      and a [None] assigned to it is kept as the empty text (the program
      only tests that field for truth).  Where the program would store a
      JSON value that is not text into a text field, the typed record has
      no image for it; [latest_text] and [from_item] say what the model
      does there.
    - Calls into libraries and the platform ([subprocess.run],
      [shutil.which], [urlopen], [json.loads], [re.search],
      [datetime.isoformat] and [fromisoformat]) are the fields of [Host].
    - Objects that are mutated through several lists live in a store
      ([heap]) and the lists hold addresses.
    - Rendering (rich panels, progress bars, log lines) is not modelled,
      except for the lines [execute_updates] prints per item and the
      lines [_handle_single_update] prints itself. *)

From Stdlib Require Import String Ascii List ZArith Bool Arith Lia.
From Stdlib Require Import Sorting.Sorted Sorting.Permutation.
From Stdlib Require Import DecimalString DecimalZ.
Import ListNotations.
Open Scope string_scope.
Open Scope list_scope.
Open Scope nat_scope.

Set Implicit Arguments.

(* ------------------------------------------------------------------ *)
(** ** Text primitives (the [str] methods the program calls) *)
(* ------------------------------------------------------------------ *)

Module Text.

(** [str.isspace] on ASCII: TAB, LF, VT, FF, CR, FS, GS, RS, US, space. *)
Definition is_space (c : ascii) : bool :=
  let n := nat_of_ascii c in
  ((9 <=? n) && (n <=? 13)) || ((28 <=? n) && (n <=? 32)).

(** The class [\d] on ASCII. *)
Definition is_digit (c : ascii) : bool :=
  let n := nat_of_ascii c in (48 <=? n) && (n <=? 57).

Fixpoint lstrip (s : string) : string :=
  match s with
  | EmptyString => EmptyString
  | String c s' => if is_space c then lstrip s' else s
  end.

Fixpoint rstrip (s : string) : string :=
  match s with
  | EmptyString => EmptyString
  | String c s' =>
      match rstrip s' with
      | EmptyString => if is_space c then EmptyString else String c EmptyString
      | r => String c r
      end
  end.

(** [s.strip()] *)
Definition strip (s : string) : string := rstrip (lstrip s).

(** [re.sub(r'^[^\d]+', '', s)]: the pattern is anchored at the start of
    the text, so the one possible match is the longest prefix without a
    digit. *)
Fixpoint sub_nondigit_prefix (s : string) : string :=
  match s with
  | EmptyString => EmptyString
  | String c s' => if is_digit c then s else sub_nondigit_prefix s'
  end.

(** [sub in s] *)
Fixpoint contains (sub s : string) : bool :=
  prefix sub s ||
  match s with
  | EmptyString => false
  | String _ s' => contains sub s'
  end.

(** [s.find(sub)]: the lowest index, or -1. *)
Fixpoint find (sub s : string) : Z :=
  if prefix sub s then 0%Z
  else match s with
       | EmptyString => (-1)%Z
       | String _ s' => let r := find sub s' in
                        if (r <? 0)%Z then (-1)%Z else (r + 1)%Z
       end.

(** An index of a slice, as Python normalises it for a text of length
    [n]: a negative index counts from the end, and both ends are
    clamped to [0, n]. *)
Definition slice_index (n i : Z) : Z :=
  if (i <? 0)%Z then Z.max 0 (i + n) else Z.min i n.

(** [s[i:j]] *)
Definition slice (s : string) (i j : Z) : string :=
  let n := Z.of_nat (String.length s) in
  let lo := slice_index n i in
  let hi := slice_index n j in
  substring (Z.to_nat lo) (Z.to_nat (hi - lo)) s.

Definition is_linebreak (c : ascii) : bool :=
  let n := nat_of_ascii c in
  (n =? 10) || (n =? 11) || (n =? 12) || (n =? 28) || (n =? 29) || (n =? 30).

Fixpoint splitlines_from (cur : list ascii) (s : list ascii) : list string :=
  match s with
  | [] => match cur with
          | [] => []
          | _ => [string_of_list_ascii (rev cur)]
          end
  | c :: s' =>
      if (nat_of_ascii c =? 13)%nat then
        match s' with
        | c' :: s'' =>
            if (nat_of_ascii c' =? 10)%nat
            then string_of_list_ascii (rev cur) :: splitlines_from [] s''
            else string_of_list_ascii (rev cur) :: splitlines_from [] s'
        | [] => [string_of_list_ascii (rev cur)]
        end
      else if is_linebreak c
      then string_of_list_ascii (rev cur) :: splitlines_from [] s'
      else splitlines_from (c :: cur) s'
  end.

(** [s.splitlines()]: CR LF counts as one break, no empty last line. *)
Definition splitlines (s : string) : list string :=
  splitlines_from [] (list_ascii_of_string s).

Fixpoint split_from (sep : ascii) (cur : list ascii) (s : list ascii)
  : list string :=
  match s with
  | [] => [string_of_list_ascii (rev cur)]
  | c :: s' =>
      if Ascii.eqb c sep
      then string_of_list_ascii (rev cur) :: split_from sep [] s'
      else split_from sep (c :: cur) s'
  end.

(** [s.split(sep)] for a one-character separator: empty fields are kept. *)
Definition split (sep : ascii) (s : string) : list string :=
  split_from sep [] (list_ascii_of_string s).

Definition lower_char (c : ascii) : ascii :=
  let n := nat_of_ascii c in
  if (65 <=? n) && (n <=? 90) then ascii_of_nat (n + 32) else c.

(** [s.lower()] on ASCII letters. *)
Fixpoint lower (s : string) : string :=
  match s with
  | EmptyString => EmptyString
  | String c s' => String (lower_char c) (lower s')
  end.

(** [s.replace(c, "")] for a one-character [c]. *)
Fixpoint remove_char (x : ascii) (s : string) : string :=
  match s with
  | EmptyString => EmptyString
  | String c s' => if Ascii.eqb c x then remove_char x s'
                   else String c (remove_char x s')
  end.

(** Truth value of a [str]. *)
Definition nonempty (s : string) : bool :=
  match s with EmptyString => false | _ => true end.

End Text.

(* ------------------------------------------------------------------ *)
(** ** Core data model *)
(* ------------------------------------------------------------------ *)

Inductive UpdateStatus : Type :=
| UP_TO_DATE
| UPDATE_AVAILABLE
| UNKNOWN
| ERROR
| VULNERABLE
| SECURITY_UPDATE_AVAILABLE.

(** The [value] of each member of the enumeration. *)
Definition status_value (s : UpdateStatus) : string :=
  match s with
  | UP_TO_DATE => "✅"
  | UPDATE_AVAILABLE => "⬆️"
  | UNKNOWN => "❓"
  | ERROR => "❌"
  | VULNERABLE => "🔥"
  | SECURITY_UPDATE_AVAILABLE => "🔒"
  end.

Definition all_statuses : list UpdateStatus :=
  [UP_TO_DATE; UPDATE_AVAILABLE; UNKNOWN; ERROR; VULNERABLE;
   SECURITY_UPDATE_AVAILABLE].

(** [UpdateStatus(v)]: the member whose value is [v]; [None] stands for the
    [ValueError] raised when there is none. *)
Definition status_of_value (v : string) : option UpdateStatus :=
  List.find (fun s => String.eqb (status_value s) v) all_statuses.

(** A naive [datetime], in microseconds; a [timedelta] likewise. *)
Definition datetime := Z.
Definition timedelta := Z.

Record AppInfo : Type := mkAppInfo {
  name : string;
  source : string;
  version : string;
  latest_version : string;
  app_id : option string;
  update_status : UpdateStatus;
  error_msg : option string;
  install_path : option string;
  scan_time : datetime
}.

(** [app.latest_version = v] *)
Definition set_latest_version (v : string) (a : AppInfo) : AppInfo :=
  mkAppInfo (name a) (source a) (version a) v (app_id a) (update_status a)
            (error_msg a) (install_path a) (scan_time a).

(** [app.update_status = s] *)
Definition set_update_status (s : UpdateStatus) (a : AppInfo) : AppInfo :=
  mkAppInfo (name a) (source a) (version a) (latest_version a) (app_id a) s
            (error_msg a) (install_path a) (scan_time a).

(** [AppInfo.has_update] *)
Definition has_update (a : AppInfo) : bool :=
  Text.nonempty (latest_version a)
  && negb (String.eqb (latest_version a) (version a)).

(** The source identifiers the scanners write into [source]. *)
Definition known_sources : list string :=
  ["Winget"; "Chocolatey"; "NPM"; "PNPM"; "Bun"; "Yarn"; "PIP"; "PATH";
   "Registry"].

Definition mem_string (s : string) (l : list string) : bool :=
  existsb (String.eqb s) l.

(* ------------------------------------------------------------------ *)
(** ** The merge step of [SystemUpdateApp.run] (lines 1460-1462) *)
(* ------------------------------------------------------------------ *)

(** A Python [dict] with [str] keys: an association list in insertion
    order.  Assigning to a key already present replaces the value and
    keeps the key's place. *)
Definition dict (V : Type) := list (string * V).

Fixpoint dict_set {V} (k : string) (v : V) (d : dict V) : dict V :=
  match d with
  | [] => [(k, v)]
  | (k', v') :: d' =>
      if String.eqb k' k then (k, v) :: d' else (k', v') :: dict_set k v d'
  end.

Fixpoint dict_get {V} (k : string) (d : dict V) : option V :=
  match d with
  | [] => None
  | (k', v) :: d' => if String.eqb k' k then Some v else dict_get k d'
  end.

Definition dict_values {V} (d : dict V) : list V := map snd d.
Definition dict_keys {V} (d : dict V) : list string := map fst d.

(** [f"{a.name}|{a.version}"] *)
Definition dedup_key (a : AppInfo) : string :=
  (name a ++ "|" ++ version a)%string.

(** [list({f"{a.name}|{a.version}": a for a in apps}.values())] *)
Definition run_dedup (apps : list AppInfo) : list AppInfo :=
  dict_values (fold_left (fun d a => dict_set (dedup_key a) a d) apps []).

(** The order of the tuples [(x.source, x.name)]. *)
Definition source_name_le (a b : AppInfo) : bool :=
  match String.compare (source a) (source b) with
  | Lt => true
  | Eq => String.leb (name a) (name b)
  | Gt => false
  end.

(** [sorted(l, key=...)] is stable: an element is placed before the first
    element of the sorted rest whose key is not smaller. *)
Section Sorted.
Variable A : Type.
Variable le : A -> A -> bool.

Fixpoint sorted_insert (x : A) (l : list A) : list A :=
  match l with
  | [] => [x]
  | y :: l' => if le x y then x :: l else y :: sorted_insert x l'
  end.

Fixpoint sorted (l : list A) : list A :=
  match l with
  | [] => []
  | x :: l' => sorted_insert x (sorted l')
  end.
End Sorted.

(** [sorted(unique_apps, key=lambda x: (x.source, x.name))] *)
Definition run_sort (apps : list AppInfo) : list AppInfo :=
  sorted source_name_le apps.

(** Lines 1461-1462 together. *)
Definition run_merge (all_apps : list AppInfo) : list AppInfo :=
  run_sort (run_dedup all_apps).

(** The tail of [PackageScanner.scan_registry] (lines 810-817): the
    same key, but a key already present is left alone. *)
Definition scan_registry_unique (apps : list AppInfo) : list AppInfo :=
  sorted (fun a b => String.leb (name a) (name b))
    (dict_values
       (fold_left
          (fun d a =>
             match dict_get (dedup_key a) d with
             | None => dict_set (dedup_key a) a d
             | Some _ => d
             end) apps [])).

(* ------------------------------------------------------------------ *)
(** ** JSON documents, as [json.loads] returns them *)
(* ------------------------------------------------------------------ *)

(** Numbers are kept as integers; an object is a [dict] in the order of
    the document. *)
#[local] Unset Elimination Schemes.
Inductive json : Type :=
| JNull
| JBool (b : bool)
| JNum (n : Z)
| JStr (s : string)
| JList (l : list json)
| JDict (d : list (string * json)).
#[local] Set Elimination Schemes.

(** Truth value of a parsed document. *)
Definition json_truthy (j : json) : bool :=
  match j with
  | JNull => false
  | JBool b => b
  | JNum n => negb (n =? 0)%Z
  | JStr s => Text.nonempty s
  | JList l => match l with [] => false | _ => true end
  | JDict d => match d with [] => false | _ => true end
  end.

(** An [Optional[str]] as JSON. *)
Definition json_of_option (o : option string) : json :=
  match o with
  | Some s => JStr s
  | None => JNull
  end.

(* ------------------------------------------------------------------ *)
(** ** The host: what the program asks of the platform and of libraries *)
(* ------------------------------------------------------------------ *)

(** The outcome of [subprocess.run(cmd, ..., check=False, timeout=t)]. *)
Inductive proc_result : Type :=
| Completed (returncode : Z) (stdout stderr : string)
| TimeoutExpired
| FileNotFoundError
| OtherError.

Class Host : Type := {
  (** the state of the machine outside the program *)
  World : Type;
  (** [platform.system() == "Windows"] *)
  is_windows : bool;
  (** [sys.executable] *)
  sys_executable : string;
  (** [shutil.which] *)
  which : World -> string -> option string;
  (** [subprocess.run] *)
  spawn : World -> list string -> Z -> proc_result * World;
  (** [urllib.request.urlopen(...).read().decode()]; [None] for any
      exception *)
  urlopen : World -> string -> option string * World;
  (** [json.loads]; [None] for [JSONDecodeError] *)
  json_loads : string -> option json;
  (** [re.search(pattern, text, re.IGNORECASE if flag else 0)], reduced to
      [group(1)] of the match *)
  re_search : string -> bool -> string -> option string;
  (** [datetime.isoformat] and [datetime.fromisoformat] ([None]: the
      [ValueError]) *)
  isoformat : datetime -> string;
  fromisoformat : string -> option datetime
}.

(** A line printed by [execute_updates]. *)
Inductive report : Type :=
| DryRunLine (app_name latest : string)
| UpdatedLine (app_name latest : string)
| FailedLine (app_name : string)
| CompletedLine (success_count total : nat).

Definition ref := nat.

(** A computation either returns or raises; its effects stay in both
    cases. *)
Inductive res (A : Type) : Type :=
| Val (a : A)
| Raised.
Arguments Raised {A}.

Section Program.
Context {host : Host}.

(** The store of [AppInfo] objects, by address. *)
Definition heap := ref -> AppInfo.

Record machine : Type := mkMachine {
  world : World;
  objects : heap;
  (** the argument vectors handed to [subprocess.run], oldest first *)
  commands : list (list string);
  console : list report
}.

Definition M (A : Type) : Type := machine -> res A * machine.

Definition ret {A} (a : A) : M A := fun m => (Val a, m).

Definition bind {A B} (c : M A) (k : A -> M B) : M B :=
  fun m =>
    match c m with
    | (Val a, m') => k a m'
    | (Raised, m') => (Raised, m')
    end.

Definition raise {A} : M A := fun m => (Raised, m).

(** [try: c  except Exception: h] *)
Definition catch {A} (c : M A) (h : M A) : M A :=
  fun m =>
    match c m with
    | (Val a, m') => (Val a, m')
    | (Raised, m') => h m'
    end.

End Program.

Notation "x <- c ;; k" := (bind c (fun x => k))
  (at level 61, c at next level, right associativity).
Notation "c ;;; k" := (bind c (fun _ => k))
  (at level 61, right associativity).

Section Invoker.
Context {host : Host}.

(** [for x in l: acc = body(x, acc)] *)
Fixpoint for_acc {A B} (l : list A) (acc : B) (body : A -> B -> M B) : M B :=
  match l with
  | [] => ret acc
  | x :: l' => acc' <- body x acc ;; for_acc l' acc' body
  end.

Definition get_objects : M heap := fun m => (Val (objects m), m).

Definition put_objects (h : heap) : M unit :=
  fun m => (Val tt, mkMachine (world m) h (commands m) (console m)).

Definition print (r : report) : M unit :=
  fun m => (Val tt,
            mkMachine (world m) (objects m) (commands m) (console m ++ [r])).

(** [h[r] = f(h[r])]: an assignment to fields of the object at [r]. *)
Definition modify (r : ref) (f : AppInfo -> AppInfo) (h : heap) : heap :=
  fun r' => if Nat.eqb r' r then f (h r') else h r'.

(** [app.latest_version = latest] followed by
    [app.update_status = UpdateStatus.UPDATE_AVAILABLE]. *)
Definition mark_update (latest : string) (a : AppInfo) : AppInfo :=
  set_update_status UPDATE_AVAILABLE (set_latest_version latest a).

(* ------------------------------------------------------------------ *)
(** ** [run_command] (lines 339-369) *)
(* ------------------------------------------------------------------ *)

Definition LF : string := String "010"%char EmptyString.

(** [text or None] *)
Definition or_none (text : string) : option string :=
  if Text.nonempty text then Some text else None.

(** What [run_command] makes of the outcome of [subprocess.run]. *)
Definition command_output (r : proc_result)
           (allow_failure include_stderr : bool) : res (option string) :=
  match r with
  | Completed returncode stdout stderr =>
      if negb (returncode =? 0)%Z && negb allow_failure then Val None
      else if include_stderr
           then Val (or_none (Text.strip (stdout ++ LF ++ stderr)%string))
           else Val (or_none (Text.strip stdout))
  | TimeoutExpired => Val None
  | FileNotFoundError => Val None
  | OtherError => Raised
  end.

(** On Windows [cmd[0]] is replaced by what [shutil.which] finds; [None]
    is the [IndexError] of [cmd[0]] on an empty list. *)
Definition resolve_executable (w : World) (cmd : list string)
  : option (list string) :=
  if is_windows then
    match cmd with
    | [] => None
    | c :: rest =>
        match which w c with
        | Some executable =>
            if Text.nonempty executable then Some (executable :: rest)
            else Some cmd
        | None => Some cmd
        end
    end
  else Some cmd.

Definition run_command (cmd : list string) (timeout : Z)
           (allow_failure include_stderr : bool) : M (option string) :=
  fun m =>
    match resolve_executable (world m) cmd with
    | None => (Raised, m)
    | Some argv =>
        let (r, w') := spawn (world m) argv timeout in
        (command_output r allow_failure include_stderr,
         mkMachine w' (objects m) (commands m ++ [argv]) (console m))
    end.

(** The default [timeout=45]. *)
Definition default_timeout : Z := 45%Z.

(** [fetch_json] (lines 1134-1140) *)
Definition fetch_json (url : string) : M (option json) :=
  fun m =>
    let (body, w') := urlopen (world m) url in
    (Val match body with
         | Some text => json_loads text
         | None => None
         end,
     mkMachine w' (objects m) (commands m) (console m)).

End Invoker.

(* ------------------------------------------------------------------ *)
(** ** [UpdateChecker]: the per-source checks *)
(* ------------------------------------------------------------------ *)

(** A loop that an exception may leave: [Stop] carries the state reached
    when the exception was raised. *)
Inductive flow (S : Type) : Type :=
| Next (s : S)
| Stop (s : S).

Fixpoint fold_until {A S} (step : S -> A -> flow S) (l : list A) (s : S)
  : flow S :=
  match l with
  | [] => Next s
  | x :: l' =>
      match step s x with
      | Next s' => fold_until step l' s'
      | Stop s' => Stop s'
      end
  end.

Definition flow_state {S} (f : flow S) : S :=
  match f with
  | Next s => s
  | Stop s => s
  end.

(** [next((i for i, line in enumerate(lines) if p(line)), -1)]; [None] is
    the [-1]. *)
Fixpoint first_index {A} (p : A -> bool) (l : list A) : option nat :=
  match l with
  | [] => None
  | x :: l' => if p x then Some 0 else option_map S (first_index p l')
  end.

(** The columns of a [winget upgrade] table, from its header line. *)
Record positions : Type := mkPositions {
  pos_id : Z;
  pos_version : Z;
  pos_available : Z;
  pos_source : Z
}.

Definition header_positions (header : string) : positions :=
  mkPositions (Text.find "Id" header) (Text.find "Version" header)
              (Text.find "Available" header) (Text.find "Source" header).

Definition is_upgrade_header (line : string) : bool :=
  Text.contains "Name" line && Text.contains "Id" line.

(** [positions["source"] if positions["source"] != -1 else len(line)] *)
Definition available_end (pos : positions) (line : string) : Z :=
  if (pos_source pos =? -1)%Z then Z.of_nat (String.length line)
  else pos_source pos.

(** The value a JSON document gives to [latest_version]: its text.
    [None] (JSON null, or a missing key read with [.get]) is kept as the
    empty text, the other falsy value of the field.  A value of another
    JSON type has no image in the typed record. *)
Definition latest_text (j : json) : option string :=
  match j with
  | JStr s => Some s
  | JNull => Some ""
  | _ => None
  end.

(** [d.get(k, default)] *)
Definition get_default (k : string) (default : json) (d : dict json) : json :=
  match dict_get k d with
  | Some j => j
  | None => default
  end.

Section UpdateChecker.
Context {host : Host}.

(** A block that only assigns to objects and counts. *)
Definition on_objects (f : heap -> heap * nat) : M nat :=
  fun m =>
    let (h, n) := f (objects m) in
    (Val n, mkMachine (world m) h (commands m) (console m)).

(** One object assignment and [updates += 1]. *)
Definition count_update (r : ref) (latest : string) (st : heap * nat)
  : heap * nat :=
  (modify r (mark_update latest) (fst st), S (snd st)).

(** *** Winget (lines 892-937) *)

(** [app.app_id and app.app_id.lower() == app_id.lower()] *)
Definition id_matches (a : AppInfo) (row_id : string) : bool :=
  match app_id a with
  | Some i => Text.nonempty i && String.eqb (Text.lower i) (Text.lower row_id)
  | None => false
  end.

Definition winget_row (pos : positions) (apps : list ref)
           (st : heap * nat) (line : string) : heap * nat :=
  if negb (Text.nonempty (Text.strip line)) then st
  else
    let row_id := Text.strip (Text.slice line (pos_id pos) (pos_version pos)) in
    if negb (pos_available pos =? -1)%Z then
      let latest :=
        Text.strip (Text.slice line (pos_available pos) (available_end pos line)) in
      if Text.nonempty row_id && Text.nonempty latest then
        fold_left
          (fun st r =>
             if id_matches (fst st r) row_id then count_update r latest st
             else st)
          apps st
      else st
    else st.

Definition winget_upgrades (apps : list ref) (output : string) (h : heap)
  : heap * nat :=
  let lines := Text.splitlines output in
  match first_index is_upgrade_header lines with
  | None => (h, 0)
  | Some header_index =>
      let pos := header_positions (nth header_index lines "") in
      fold_left (winget_row pos apps) (skipn (header_index + 2) lines) (h, 0)
  end.

Definition _check_winget_updates (apps : list ref) : M nat :=
  output <- run_command ["winget"; "upgrade"; "--accept-source-agreements"]
                        default_timeout false false ;;
  match output with
  | Some (String _ _ as text) => on_objects (winget_upgrades apps text)
  | _ => ret 0
  end.

(** *** Registry (lines 939-996) *)

Definition mark_all_up_to_date (apps : list ref) (h : heap) : heap :=
  fold_left (fun h r => modify r (set_update_status UP_TO_DATE) h) apps h.

Definition registry_row (pos : positions) (upgrade_map : dict string)
           (line : string) : dict string :=
  if negb (Text.nonempty (Text.strip line)) then upgrade_map
  else
    let row_name := Text.lower (Text.strip (Text.slice line 0 (pos_id pos))) in
    if negb (pos_available pos =? -1)%Z then
      let latest :=
        Text.strip (Text.slice line (pos_available pos) (available_end pos line)) in
      if Text.nonempty row_name && Text.nonempty latest
      then dict_set row_name latest upgrade_map
      else upgrade_map
    else upgrade_map.

Definition registry_upgrades (apps : list ref) (output : string) (h : heap)
  : heap * nat :=
  let lines := Text.splitlines output in
  match first_index is_upgrade_header lines with
  | None => (mark_all_up_to_date apps h, 0)
  | Some header_index =>
      let pos := header_positions (nth header_index lines "") in
      let upgrade_map :=
        fold_left (registry_row pos) (skipn (header_index + 2) lines) [] in
      fold_left
        (fun st r =>
           match dict_get (Text.lower (name (fst st r))) upgrade_map with
           | Some (String _ _ as latest) => count_update r latest st
           | _ => (modify r (set_update_status UP_TO_DATE) (fst st), snd st)
           end)
        apps (h, 0)
  end.

Definition _check_registry_updates (apps : list ref) : M nat :=
  output <- run_command ["winget"; "upgrade"; "--accept-source-agreements"]
                        default_timeout true false ;;
  match output with
  | Some (String _ _ as text) => on_objects (registry_upgrades apps text)
  | _ => on_objects (fun h => (mark_all_up_to_date apps h, 0))
  end.

(** *** Chocolatey (lines 998-1015) *)

Definition choco_row (apps : list ref) (st : heap * nat) (line : string)
  : heap * nat :=
  let parts := Text.split "|"%char line in
  if 3 <=? length parts then
    fold_left
      (fun st r =>
         if String.eqb (name (fst st r)) (nth 0 parts "")
         then count_update r (nth 2 parts "") st
         else st)
      apps st
  else st.

Definition choco_outdated (apps : list ref) (output : string) (h : heap)
  : heap * nat :=
  fold_left (choco_row apps) (Text.splitlines output) (h, 0).

Definition _check_choco_updates (apps : list ref) : M nat :=
  output <- run_command ["choco"; "outdated"; "--limit-output"]
                        default_timeout false false ;;
  match output with
  | Some (String _ _ as text) => on_objects (choco_outdated apps text)
  | _ => ret 0
  end.

(** *** NPM (lines 1017-1038) *)

(** [app.latest_version = j], the status and the count.  The source
    stores [j] whatever its type; where the typed record cannot hold it
    the model leaves the loop, as it does for an exception. *)
Definition assign_latest (r : ref) (j : json) (st : heap * nat)
  : flow (heap * nat) :=
  match latest_text j with
  | Some latest => Next (count_update r latest st)
  | None => Stop st
  end.

Definition npm_entry (apps : list ref) (st : heap * nat)
           (entry : string * json) : flow (heap * nat) :=
  fold_until
    (fun st r =>
       if String.eqb (name (fst st r)) (fst entry) then
         match snd entry with
         | JDict details =>
             let latest_version := get_default "latest" (JStr "") details in
             if json_truthy latest_version
             then assign_latest r latest_version st
             else Next st
         | _ => Stop st
         end
       else Next st)
    apps st.

Definition npm_outdated (apps : list ref) (data : json) (h : heap)
  : heap * nat :=
  match data with
  | JDict items => flow_state (fold_until (npm_entry apps) items (h, 0))
  | _ => (h, 0)
  end.

Definition _check_npm_updates (apps : list ref) : M nat :=
  output <- run_command ["npm"; "outdated"; "-g"; "--json"]
                        default_timeout true false ;;
  match output with
  | Some (String _ _ as text) =>
      match json_loads text with
      | Some data => on_objects (npm_outdated apps data)
      | None => ret 0
      end
  | _ => ret 0
  end.

(** *** PNPM (lines 1040-1072) *)

(** [details.get("latest", details.get("wanted", ""))] *)
Definition latest_or_wanted (details : dict json) : json :=
  get_default "latest" (get_default "wanted" (JStr "") details) details.

Definition pnpm_entry (apps : list ref) (st : heap * nat)
           (entry : string * json) : flow (heap * nat) :=
  fold_until
    (fun st r =>
       if String.eqb (name (fst st r)) (fst entry) then
         match snd entry with
         | JDict details =>
             let latest_version := latest_or_wanted details in
             if json_truthy latest_version
             then assign_latest r latest_version st
             else Next st
         | _ => Stop st
         end
       else Next st)
    apps st.

(** [app.name == j] for a JSON value [j] *)
Definition name_is (a : AppInfo) (j : option json) : bool :=
  match j with
  | Some (JStr s) => String.eqb (name a) s
  | _ => false
  end.

Definition pnpm_item (apps : list ref) (st : heap * nat) (item : json)
  : flow (heap * nat) :=
  match item with
  | JDict fields =>
      let item_name := dict_get "name" fields in
      fold_until
        (fun st r =>
           if name_is (fst st r) item_name then
             let latest_version := latest_or_wanted fields in
             if json_truthy latest_version
             then assign_latest r latest_version st
             else Next st
           else Next st)
        apps st
  | _ => Stop st
  end.

Definition pnpm_outdated (apps : list ref) (data : json) (h : heap)
  : heap * nat :=
  match data with
  | JDict items => flow_state (fold_until (pnpm_entry apps) items (h, 0))
  | JList items => flow_state (fold_until (pnpm_item apps) items (h, 0))
  | _ => (h, 0)
  end.

Definition _check_pnpm_updates (apps : list ref) : M nat :=
  output <- run_command ["pnpm"; "outdated"; "-g"; "--json"]
                        default_timeout true false ;;
  match output with
  | Some (String _ _ as text) =>
      match json_loads text with
      | Some data => on_objects (pnpm_outdated apps data)
      | None => ret 0
      end
  | _ => ret 0
  end.

(** *** PIP (lines 1074-1098) *)

Definition pip_item (apps : list ref) (st : heap * nat) (item : json)
  : flow (heap * nat) :=
  match item with
  | JDict fields =>
      let item_name := dict_get "name" fields in
      let latest := get_default "latest_version" JNull fields in
      fold_until
        (fun st r =>
           if name_is (fst st r) item_name then assign_latest r latest st
           else Next st)
        apps st
  | _ => Stop st
  end.

(** Iterating over a document that is not a list either raises at once or
    yields keys or characters, on which [item.get] raises: nothing is
    assigned. *)
Definition pip_outdated (apps : list ref) (data : json) (h : heap)
  : heap * nat :=
  match data with
  | JList items => flow_state (fold_until (pip_item apps) items (h, 0))
  | _ => (h, 0)
  end.

Definition _check_pip_updates (apps : list ref) : M nat :=
  output <- run_command
              [sys_executable; "-m"; "pip"; "list"; "--outdated"; "--format=json"]
              default_timeout true false ;;
  match output with
  | Some (String _ _ as text) =>
      match json_loads text with
      | Some data => on_objects (pip_outdated apps data)
      | None => ret 0
      end
  | _ => ret 0
  end.

(** *** Bun and Yarn (lines 1100-1126) *)

Definition npm_info_step (r : ref) (updates : nat) : M nat :=
  h <- get_objects ;;
  output <- run_command ["npm"; "info"; name (h r); "version"]
                        default_timeout false false ;;
  match output with
  | Some (String _ _ as text) =>
      let latest := Text.strip text in
      on_objects
        (fun h =>
           if Text.nonempty latest
              && negb (String.eqb latest (version (h r)))
              && negb (Text.contains "ERR" latest)
           then count_update r latest (h, updates)
           else (h, updates))
  | _ => ret updates
  end.

Definition _check_bun_updates (apps : list ref) : M nat :=
  for_acc apps 0 npm_info_step.

Definition _check_yarn_updates (apps : list ref) : M nat :=
  for_acc apps 0 npm_info_step.

End UpdateChecker.

(* ------------------------------------------------------------------ *)
(** ** PATH tools (lines 1128-1200) *)
(* ------------------------------------------------------------------ *)

(** [re.sub(r'^[^\d]+', '', v).strip()] *)
Definition clean (v : string) : string :=
  Text.strip (Text.sub_nondigit_prefix v).

(** [clean_latest != clean_version and clean_latest not in app.version] *)
Definition is_newer (installed latest : string) : bool :=
  negb (String.eqb (clean latest) (clean installed))
  && negb (Text.contains (clean latest) installed).

(** [data and data.get("tag_name")], then the tag as the text the
    branches go on to use: [Raised] where [.get] has no receiver or the
    tag is not a [str]. *)
Definition tag_name (data : option json) : res (option string) :=
  match data with
  | None => Val None
  | Some j =>
      if json_truthy j then
        match j with
        | JDict d =>
            match dict_get "tag_name" d with
            | Some t =>
                if json_truthy t then
                  match t with
                  | JStr s => Val (Some s)
                  | _ => Raised
                  end
                else Val None
            | None => Val None
            end
        | _ => Raised
        end
      else Val None
  end.

Section PathChecker.
Context {host : Host}.

Definition lift_res {A} (r : res A) : M A := fun m => (r, m).

(** The body of the [if]/[elif] chain: the value of [latest] when the
    chain is left. *)
Definition path_latest (a : AppInfo) : M string :=
  if String.eqb (name a) "bun" then
    output <- run_command ["bun"; "upgrade"; "--dry-run"]
                          default_timeout true true ;;
    match output with
    | Some (String _ _ as text) =>
        match re_search "Bun v([0-9.]+)\s+is out!" false text with
        | Some g => ret g
        | None => ret (version a)
        end
    | _ => ret ""
    end
  else if String.eqb (name a) "deno" then
    output <- run_command ["deno"; "upgrade"; "--dry-run"]
                          default_timeout true true ;;
    match output with
    | Some (String _ _ as text) =>
        match re_search "Found latest stable version\s+v?([0-9.]+)" true text with
        | Some g => ret g
        | None => ret (version a)
        end
    | _ => ret ""
    end
  else if mem_string (name a) ["yarn"; "npm"; "pnpm"; "node"] then
    output <- run_command ["npm"; "view"; name a; "version"]
                          default_timeout false false ;;
    match output with
    | Some (String _ _ as text) =>
        if negb (Text.contains "ERR" text) then ret (Text.strip text)
        else ret ""
    | _ => ret ""
    end
  else if String.eqb (name a) "python" then
    data <- fetch_json "https://api.github.com/repos/python/cpython/releases/latest" ;;
    tag <- lift_res (tag_name data) ;;
    let latest :=
      match tag with
      | Some t =>
          match re_search "v?([0-9.]+)" false t with
          | Some g => g
          | None => ""
          end
      | None => ""
      end in
    if Text.nonempty latest then ret latest else ret (version a)
  else if String.eqb (name a) "git" then
    data <- fetch_json "https://api.github.com/repos/git-for-windows/git/releases/latest" ;;
    tag <- lift_res (tag_name data) ;;
    match tag with
    | Some t =>
        match re_search "v?([0-9.]+?)(?:\.windows)" false t with
        | Some g => ret g
        | None => ret (Text.remove_char "v"%char t)
        end
    | None => ret ""
    end
  else if String.eqb (name a) "pwsh" then
    data <- fetch_json "https://api.github.com/repos/PowerShell/PowerShell/releases/latest" ;;
    tag <- lift_res (tag_name data) ;;
    match tag with
    | Some t => ret (Text.remove_char "v"%char t)
    | None => ret ""
    end
  else if String.eqb (name a) "dotnet" then
    output <- run_command
                ["winget"; "show"; "Microsoft.DotNet.SDK.9";
                 "--accept-source-agreements"]
                default_timeout false false ;;
    match output with
    | Some (String _ _ as text) =>
        match re_search "Version:\s+([0-9.]+)" false text with
        | Some g => ret g
        | None => ret ""
        end
    | _ => ret ""
    end
  else ret "".

(** The block under [if latest:] (lines 1189-1197). *)
Definition path_decide (r : ref) (latest : string) (st : heap * nat)
  : heap * nat :=
  let a := fst st r in
  let clean_latest := clean latest in
  let h := modify r (set_latest_version clean_latest) (fst st) in
  if is_newer (version a) latest
  then (modify r (set_update_status UPDATE_AVAILABLE) h, S (snd st))
  else (modify r (set_update_status UP_TO_DATE) h, snd st).

(** One turn of [for app in apps], with its [try ... except Exception:
    pass]. *)
Definition path_step (r : ref) (updates : nat) : M nat :=
  catch
    (h <- get_objects ;;
     latest <- path_latest (h r) ;;
     if Text.nonempty latest
     then on_objects (fun h => path_decide r latest (h, updates))
     else ret updates)
    (ret updates).

Definition _check_path_updates (apps : list ref) : M nat :=
  for_acc apps 0 path_step.

(* ------------------------------------------------------------------ *)
(** ** [check_all_updates] (lines 828-890) *)
(* ------------------------------------------------------------------ *)

(** The keys of [sources], in the order of the dictionary display. *)
Definition source_names : list string :=
  ["Winget"; "Chocolatey"; "NPM"; "PNPM"; "Bun"; "Yarn"; "PIP"; "PATH";
   "Registry"].

(** [[a for a in apps if a.source == s]] *)
Definition apps_of_source (h : heap) (apps : list ref) (s : string)
  : list ref :=
  filter (fun r => String.eqb (source (h r)) s) apps.

(** The [if]/[elif] chain over [source_name]. *)
Definition check_source (source_name : string) (source_apps : list ref)
  : M nat :=
  if String.eqb source_name "Winget" then _check_winget_updates source_apps
  else if String.eqb source_name "Chocolatey" then _check_choco_updates source_apps
  else if String.eqb source_name "NPM" then _check_npm_updates source_apps
  else if String.eqb source_name "PNPM" then _check_pnpm_updates source_apps
  else if String.eqb source_name "Bun" then _check_bun_updates source_apps
  else if String.eqb source_name "Yarn" then _check_yarn_updates source_apps
  else if String.eqb source_name "PIP" then _check_pip_updates source_apps
  else if String.eqb source_name "PATH" then _check_path_updates source_apps
  else if String.eqb source_name "Registry" then _check_registry_updates source_apps
  else ret 0.

(** The first loop (lines 849-874). *)
Definition check_sources (apps : list ref) : M nat :=
  h <- get_objects ;;
  for_acc (map (fun s => (s, apps_of_source h apps s)) source_names) 0
    (fun group total_updates =>
       match snd group with
       | [] => ret total_updates
       | source_apps =>
           n <- check_source (fst group) source_apps ;;
           ret (total_updates + n)
       end).

(** The sources the second loop lists (line 884). *)
Definition checked_sources : list string :=
  ["Winget"; "Chocolatey"; "NPM"; "PNPM"; "Bun"; "Yarn"; "PIP"; "Registry"].

(** One turn of the second loop (lines 877-887). *)
Definition reconcile (a : AppInfo) : AppInfo :=
  match update_status a with
  | UPDATE_AVAILABLE => a
  | UP_TO_DATE => a
  | _ =>
      if Text.nonempty (latest_version a) || mem_string (source a) checked_sources
      then set_update_status UP_TO_DATE a
      else set_update_status UNKNOWN a
  end.

Definition reconcile_all (apps : list ref) (h : heap) : heap :=
  fold_left (fun h r => modify r reconcile h) apps h.

Definition check_all_updates (apps : list ref) : M nat :=
  total_updates <- check_sources apps ;;
  on_objects (fun h => (reconcile_all apps h, total_updates)).

End PathChecker.

(* ------------------------------------------------------------------ *)
(** ** [UpdateExecutor] (lines 1208-1316) *)
(* ------------------------------------------------------------------ *)

Definition DQUOTE : string := String "034"%char EmptyString.

(** [f"{prefix}{target_ver}" if target_ver else ""] *)
Definition ver_spec (prefix target_ver : string) : string :=
  if Text.nonempty target_ver then (prefix ++ target_ver)%string else "".

(** [cmd.extend([flag, target_ver])] under [if target_ver:] *)
Definition with_version (flag target_ver : string) : list (option string) :=
  if Text.nonempty target_ver then [Some flag; Some target_ver] else [].

Fixpoint all_some {A} (l : list (option A)) : option (list A) :=
  match l with
  | [] => Some []
  | Some x :: l' => option_map (cons x) (all_some l')
  | None :: _ => None
  end.

Section UpdateExecutor.
Context {host : Host}.

(** The value of [cmd] when the chain over [app.source] is left; an
    element is [None] where the list holds [app.app_id] and that is
    [None]. *)
Definition upgrade_command (a : AppInfo) : option (list (option string)) :=
  let target_ver := latest_version a in
  let words := map (@Some string) in
  if String.eqb (source a) "Winget" then
    Some ([Some "winget"; Some "upgrade"; Some "--id"; app_id a;
           Some "--accept-source-agreements";
           Some "--accept-package-agreements"]
            ++ with_version "-v" target_ver)
  else if String.eqb (source a) "Chocolatey" then
    Some (words ["choco"; "upgrade"; name a; "-y"]
            ++ with_version "--version" target_ver)
  else if String.eqb (source a) "NPM" then
    Some (words ["npm"; "install"; "-g";
                 (name a ++ ver_spec "@" target_ver)%string])
  else if String.eqb (source a) "PNPM" then
    Some (words ["pnpm"; "add"; "-g";
                 (name a ++ ver_spec "@" target_ver)%string])
  else if String.eqb (source a) "Bun" then
    Some (words ["bun"; "add"; "-g";
                 (name a ++ ver_spec "@" target_ver)%string])
  else if String.eqb (source a) "Yarn" then
    Some (words ["yarn"; "global"; "add";
                 (name a ++ ver_spec "@" target_ver)%string])
  else if String.eqb (source a) "PIP" then
    Some (words [sys_executable; "-m"; "pip"; "install";
                 (name a ++ ver_spec "==" target_ver)%string]
            ++ (if Text.nonempty target_ver then [] else [Some "--upgrade"]))
  else if String.eqb (source a) "PATH" then
    if String.eqb (name a) "bun" then Some (words ["bun"; "upgrade"])
    else if String.eqb (name a) "deno" then
      Some (words ["deno"; "upgrade"] ++ with_version "--version" target_ver)
    else if String.eqb (name a) "git" then
      Some (words ["git"; "update-git-for-windows"; "-y"])
    else if String.eqb (name a) "pwsh" then
      Some (words ["powershell"; "-Command";
                   ("iex " ++ DQUOTE
                      ++ "& { $(irm https://aka.ms/install-powershell.ps1) }"
                      ++ DQUOTE)%string])
    else if String.eqb (name a) "yarn" then
      Some (words ["npm"; "install"; "-g";
                   if Text.nonempty target_ver
                   then ("yarn@" ++ target_ver)%string else "yarn"])
    else None
  else None.

(** [_execute_single_update]: a [None] among the arguments makes
    [subprocess.run] raise a [TypeError] before any process is started. *)
Definition _execute_single_update (a : AppInfo) : M bool :=
  match upgrade_command a with
  | Some ((_ :: _) as cmd) =>
      match all_some cmd with
      | Some argv =>
          output <- run_command argv default_timeout false false ;;
          match output with
          | Some (String _ _) => ret true
          | _ => ret false
          end
      | None => raise
      end
  | _ => ret false
  end.

(** One turn of the loop of [execute_updates]; the pause of the dry run
    has no effect on the state. *)
Definition execute_step (dry_run : bool) (r : ref) (success_count : nat)
  : M nat :=
  h <- get_objects ;;
  let app := h r in
  if dry_run then
    print (DryRunLine (name app) (latest_version app)) ;;;
    ret (S success_count)
  else
    success <- _execute_single_update app ;;
    if success : bool then
      print (UpdatedLine (name app) (latest_version app)) ;;;
      ret (S success_count)
    else
      print (FailedLine (name app)) ;;;
      ret success_count.

Definition execute_updates (apps : list ref) (dry_run : bool) : M unit :=
  success_count <- for_acc apps 0 (execute_step dry_run) ;;
  print (CompletedLine success_count (length apps)).

End UpdateExecutor.

(* ------------------------------------------------------------------ *)
(** ** [CacheManager] (lines 277-331) *)
(* ------------------------------------------------------------------ *)

(** The cache file: absent, present without being a JSON document, or
    holding the document [json.dump] wrote, which is the one [json.load]
    reads back. *)
Inductive cache_file : Type :=
| NoFile
| Unparsable
| Document (data : json).

(** How the [with open(...)] block of [save] ends. *)
Inductive write_result : Type :=
| Written
| OpenFailed
| DumpFailed.

(** [d.pop(k, None)] *)
Fixpoint dict_pop {V} (k : string) (d : dict V) : dict V :=
  match d with
  | [] => []
  | (k', v) :: d' => if String.eqb k' k then d' else (k', v) :: dict_pop k d'
  end.

(** The parameters of [AppInfo.__init__]. *)
Definition app_fields : list string :=
  ["name"; "source"; "version"; "latest_version"; "app_id"; "update_status";
   "error_msg"; "install_path"; "scan_time"].

(** [timedelta(hours=h)] *)
Definition hours (h : Z) : timedelta := (h * 3600000000)%Z.

Fixpoint traverse {A B} (f : A -> option B) (l : list A) : option (list B) :=
  match l with
  | [] => Some []
  | x :: l' =>
      match f x, traverse f l' with
      | Some y, Some ys => Some (y :: ys)
      | _, _ => None
      end
  end.

Section CacheManager.
Context {host : Host}.

(** [AppInfo.to_dict] *)
Definition to_dict (a : AppInfo) : json :=
  JDict [("name", JStr (name a));
         ("source", JStr (source a));
         ("version", JStr (version a));
         ("latest_version", JStr (latest_version a));
         ("app_id", json_of_option (app_id a));
         ("update_status", JStr (status_value (update_status a)));
         ("error_msg", json_of_option (error_msg a));
         ("install_path", json_of_option (install_path a));
         ("scan_time", JStr (isoformat (scan_time a)));
         ("has_update", JBool (has_update a))].

(** [is_valid] at the time [now]; every exception gives [False]. *)
Definition is_valid (f : cache_file) (duration : timedelta) (now : datetime)
  : bool :=
  match f with
  | Document (JDict data) =>
      match get_default "timestamp" (JStr "") data with
      | JStr stamp =>
          match fromisoformat stamp with
          | Some cache_time => (now - cache_time <? duration)%Z
          | None => false
          end
      | _ => false
      end
  | _ => false
  end.

(** A required field annotated [str]. *)
Definition str_field (k : string) (fields : dict json) : option string :=
  match dict_get k fields with
  | Some (JStr s) => Some s
  | _ => None
  end.

(** A field annotated [Optional[str]] with default [None]. *)
Definition optional_field (k : string) (fields : dict json)
  : option (option string) :=
  match dict_get k fields with
  | None => Some None
  | Some JNull => Some None
  | Some (JStr s) => Some (Some s)
  | Some _ => None
  end.

(** One turn of the loop of [load]: [None] is an exception, raised by
    the two conversions or by the call of [AppInfo] with the keys of the
    item as keyword arguments, on a missing or an unexpected key.  A value that the typed record cannot hold is
    refused in the same way. *)
Definition from_item (item : json) : option AppInfo :=
  match item with
  | JDict fields0 =>
      let fields := dict_pop "has_update" fields0 in
      match dict_get "update_status" fields, dict_get "scan_time" fields with
      | Some (JStr v), Some (JStr t) =>
          match status_of_value v, fromisoformat t with
          | Some status, Some time =>
              if forallb (fun k => mem_string k app_fields) (dict_keys fields)
              then
                match str_field "name" fields, str_field "source" fields,
                      str_field "version" fields,
                      latest_text (get_default "latest_version" (JStr "") fields),
                      optional_field "app_id" fields,
                      optional_field "error_msg" fields,
                      optional_field "install_path" fields with
                | Some n, Some s, Some v, Some l, Some i, Some e, Some p =>
                    Some (mkAppInfo n s v l i status e p time)
                | _, _, _, _, _, _, _ => None
                end
              else None
          | _, _ => None
          end
      | _, _ => None
      end
  | _ => None
  end.

(** [load] at the time [now]. *)
Definition load (f : cache_file) (duration : timedelta) (now : datetime)
  : option (list AppInfo) :=
  if negb (is_valid f duration now) then None
  else
    match f with
    | Document (JDict data) =>
        match get_default "apps" (JList []) data with
        | JList items => traverse from_item items
        | JDict [] => Some []
        | JStr EmptyString => Some []
        | _ => None
        end
    | _ => None
    end.

(** [save] at the time [now]; a failure is logged and not raised. *)
Definition save (apps : list AppInfo) (now : datetime) (io : write_result)
           (f : cache_file) : cache_file :=
  match io with
  | Written =>
      Document
        (JDict [("timestamp", JStr (isoformat now));
                ("version", JStr "5.0.0");
                ("total_apps", JNum (Z.of_nat (length apps)));
                ("apps", JList (map to_dict apps))])
  | OpenFailed => f
  | DumpFailed => Unparsable
  end.

(** [clear] *)
Definition clear (f : cache_file) : cache_file := NoFile.

End CacheManager.

(* ------------------------------------------------------------------ *)
(** ** The fresh scan of [SystemUpdateApp.run] (lines 1458-1468) *)
(* ------------------------------------------------------------------ *)

Section Run.
Context {host : Host}.

(** The objects of the list [l], at the addresses [0 .. len(l) - 1]. *)
Definition store_objects (l : list AppInfo) (h : heap) : heap :=
  fun r => nth r l (h r).


End Run.

(* ------------------------------------------------------------------ *)
(** ** [PackageScanner]: the scanners that read text (lines 528-610,
       732-770) *)
(* ------------------------------------------------------------------ *)

(** The names [scan_path] looks for, in its order. *)
Definition executables : list string :=
  ["node"; "npm"; "pnpm"; "yarn"; "python"; "git"; "go"; "bun"; "deno";
   "rustc"; "cargo"; "dotnet"; "java"; "pwsh"].

(** [[p.strip() for p in line.split("|") if p.strip()]] *)
Definition choco_parts (line : string) : list string :=
  filter Text.nonempty (map Text.strip (Text.split "|"%char line)).

(** The header line [scan_winget] looks for. *)
Definition is_list_header (line : string) : bool :=
  Text.contains "Name" line && Text.contains "Id" line
  && Text.contains "Version" line.

(** Where the version column ends: at the next column the header has. *)
Definition version_end (pos : positions) (line : string) : Z :=
  if negb (pos_available pos =? -1)%Z then pos_available pos
  else if negb (pos_source pos =? -1)%Z then pos_source pos
       else Z.of_nat (String.length line).

(** The name, id and version of a row of [winget list]; [None] for a
    line that is skipped. *)
Definition winget_list_row (pos : positions) (line : string)
  : option (string * string * string) :=
  if negb (Text.nonempty (Text.strip line)) || prefix "-" line then None
  else
    let row_name := Text.strip (Text.slice line 0 (pos_id pos)) in
    let row_id := Text.strip (Text.slice line (pos_id pos) (pos_version pos)) in
    let row_version :=
      Text.strip (Text.slice line (pos_version pos) (version_end pos line)) in
    if Text.nonempty row_name && Text.nonempty row_id
       && Text.nonempty row_version
    then Some (row_name, row_id, row_version)
    else None.

Section PackageScanner.
Context {host : Host}.

(** [datetime.now()], the default of [scan_time]. *)
Variable clock : World -> datetime * World.

Definition now : M datetime :=
  fun m =>
    let (t, w') := clock (world m) in
    (Val t, mkMachine w' (objects m) (commands m) (console m)).

(** [AppInfo(name=n, source=s, version=v, app_id=i, install_path=p)]:
    the other fields take their defaults. *)
Definition new_app (n s v : string) (i p : option string) : M AppInfo :=
  t <- now ;;
  ret (mkAppInfo n s v "" i UNKNOWN None p t).

(** [scan_chocolatey] (lines 590-610) *)
Definition scan_chocolatey : M (list AppInfo) :=
  output <- run_command ["choco"; "list"; "--local-only"; "--limit-output"]
                        default_timeout false false ;;
  match output with
  | Some (String _ _ as text) =>
      for_acc (Text.splitlines text) []
        (fun line apps =>
           match choco_parts line with
           | n :: v :: _ =>
               a <- new_app n "Chocolatey" v (Some n) None ;;
               ret (apps ++ [a])
           | _ => ret apps
           end)
  | _ => ret []
  end.

(** [scan_winget] (lines 528-588) *)
Definition scan_winget : M (list AppInfo) :=
  output <- run_command ["winget"; "list"; "--accept-source-agreements"]
                        default_timeout false false ;;
  match output with
  | Some (String _ _ as text) =>
      let lines := Text.splitlines text in
      match first_index is_list_header lines with
      | None => ret []
      | Some header_index =>
          let pos := header_positions (nth header_index lines "") in
          for_acc (skipn (header_index + 2) lines) []
            (fun line apps =>
               match winget_list_row pos line with
               | Some (row_name, row_id, row_version) =>
                   a <- new_app row_name "Winget" row_version (Some row_id) None ;;
                   ret (apps ++ [a])
               | None => ret apps
               end)
      end
  | _ => ret []
  end.

(** One turn of the loop of [scan_path].  The pattern is one group
    around everything it matches, so [match.group(0)] is the [group(1)]
    that [re_search] gives. *)
Definition scan_path_step (exe : string) (apps : list AppInfo)
  : M (list AppInfo) :=
  path <- run_command (if is_windows then ["where"; exe] else ["which"; exe])
                      default_timeout false false ;;
  match path with
  | Some (String _ _ as found) =>
      version_output <- run_command [exe; "--version"]
                                    default_timeout false false ;;
      match version_output with
      | Some (String _ _ as text) =>
          match re_search "(\d+\.\d+(\.\d+)*([-.].*)?)" false text with
          | Some v =>
              a <- new_app exe "PATH" v None
                           (Some (nth 0 (Text.split "010"%char found) "")) ;;
              ret (apps ++ [a])
          | None => ret apps
          end
      | _ => ret apps
      end
  | _ => ret apps
  end.

(** [scan_path] (lines 732-770) *)
Definition scan_path : M (list AppInfo) :=
  for_acc executables [] scan_path_step.

End PackageScanner.

(* ------------------------------------------------------------------ *)
(** ** [SystemConfig] (lines 182-256) *)
(* ------------------------------------------------------------------ *)

(** [_merge_settings(base, loaded)] (lines 243-249).  The method assigns
    into [base]: the dict is threaded as a state, and is returned also
    when the call raises, which [loaded.items()] does when [loaded] is
    no dict. *)
Fixpoint _merge_settings (base : dict json) (loaded : json) {struct loaded}
  : res unit * dict json :=
  match loaded with
  | JDict items =>
      (fix loop (items : list (string * json)) (base : dict json)
         : res unit * dict json :=
         match items with
         | [] => (Val tt, base)
         | (key, value) :: rest =>
             match dict_get key base, value with
             | Some (JDict sub), JDict _ =>
                 match _merge_settings sub value with
                 | (Val _, sub') => loop rest (dict_set key (JDict sub') base)
                 | (Raised, sub') => (Raised, dict_set key (JDict sub') base)
                 end
             | _, _ => loop rest (dict_set key value base)
             end
         end) items base
  | _ => (Raised, base)
  end.

(** [SystemConfig.load] (lines 233-241) on the settings [settings]: the
    file is read when it exists, and an exception of [json.load] or of
    the merge is logged and dropped. *)
Definition config_load (file : cache_file) (settings : dict json) : dict json :=
  match file with
  | Document loaded_settings => snd (_merge_settings settings loaded_settings)
  | _ => settings
  end.

(* ------------------------------------------------------------------ *)
(** ** [SystemUpdateApp._handle_single_update] (lines 1525-1562) *)
(* ------------------------------------------------------------------ *)

(** The arguments of the command line the method reads; [None] is an
    option that was not given. *)
Record Args : Type := mkArgs {
  args_package : string;
  args_source : option string;
  args_version : option string;
  args_dry_run : bool
}.

(** A line the method prints itself. *)
Inductive notice : Type :=
| NotFound (package : string)
| FilterLine (source_filter : string)
| MultipleFound
| CandidateLine (index : nat) (app_name app_source app_version : string)
| SpecifySource
| Targeting (target_version : string)
| UpToDateLine (app_name app_version : string).

(** The truth value of an optional text. *)
Definition truthy (o : option string) : bool :=
  match o with
  | Some s => Text.nonempty s
  | None => false
  end.

(** The condition of the list comprehension (lines 1533-1534). *)
Definition is_candidate (target_name : string) (target_source : option string)
           (a : AppInfo) : bool :=
  String.eqb (Text.lower (name a)) target_name
  && match target_source with
     | Some t =>
         negb (Text.nonempty t) || String.eqb (Text.lower (source a)) t
     | None => true
     end.

(** The lines of [for i, c in enumerate(candidates)]. *)
Definition candidate_lines (h : heap) (candidates : list ref) : list notice :=
  map (fun ic =>
         CandidateLine (fst ic + 1) (name (h (snd ic))) (source (h (snd ic)))
                       (version (h (snd ic))))
      (combine (seq 0 (length candidates)) candidates).

Section SingleUpdate.
Context {host : Host}.

(** [Confirm.ask]: the answer typed at the prompt. *)
Variable confirm_ask : World -> string -> bool * World.

Definition ask (prompt : string) : M bool :=
  fun m =>
    let (answer, w') := confirm_ask (world m) prompt in
    (Val answer, mkMachine w' (objects m) (commands m) (console m)).

(** The method returns the lines it printed itself; all of them are on
    the console before the first line of [execute_updates]. *)
Definition _handle_single_update (apps : list ref) (args : Args)
  : M (list notice) :=
  let target_name := Text.lower (args_package args) in
  let target_source :=
    if truthy (args_source args)
    then option_map Text.lower (args_source args)
    else None in
  h <- get_objects ;;
  let candidates :=
    filter (fun r => is_candidate target_name target_source (h r)) apps in
  match candidates with
  | [] =>
      ret (NotFound (args_package args)
             :: match args_source args with
                | Some (String _ _ as s) => [FilterLine s]
                | _ => []
                end)
  | target_app :: _ =>
      if (1 <? length candidates) && negb (truthy (args_source args)) then
        ret (MultipleFound :: candidate_lines h candidates ++ [SpecifySource])
      else
        match args_version args with
        | Some (String _ _ as v) =>
            put_objects (modify target_app (set_latest_version v) h) ;;;
            execute_updates [target_app] (args_dry_run args) ;;;
            ret [Targeting v]
        | _ =>
            if negb (has_update (h target_app)) then
              let line :=
                UpToDateLine (name (h target_app)) (version (h target_app)) in
              answer <- ask "🔄 Force reinstall?" ;;
              if negb answer then ret [line]
              else
                execute_updates [target_app] (args_dry_run args) ;;;
                ret [line]
            else
              execute_updates [target_app] (args_dry_run args) ;;;
              ret []
        end
  end.

End SingleUpdate.

(* ------------------------------------------------------------------ *)
(** ** Scripted hosts, for running the program on concrete inputs *)
(* ------------------------------------------------------------------ *)

(** A host without state of its own: every command, every request and
    every library call answers by a table.  Time stamps are written as
    decimal numerals. *)
Definition scripted_host (windows : bool)
           (run : list string -> proc_result)
           (fetch : string -> option string)
           (loads : string -> option json)
           (search : string -> bool -> string -> option string) : Host :=
  {| World := unit;
     is_windows := windows;
     sys_executable := "python";
     which := fun _ _ => None;
     spawn := fun w cmd _ => (run cmd, w);
     urlopen := fun w url => (fetch url, w);
     json_loads := loads;
     re_search := search;
     isoformat := fun t => NilEmpty.string_of_int (Z.to_int t);
     fromisoformat := fun s => option_map Z.of_int (NilEmpty.int_of_string s) |}.

(** A host on which only the commands of [run] exist. *)
Definition command_host (run : list string -> proc_result) : Host :=
  scripted_host false run (fun _ => None) (fun _ => None) (fun _ _ _ => None).

(** An item as a scanner creates it. *)
Definition scanned (n s v : string) (i : option string) : AppInfo :=
  mkAppInfo n s v "" i UNKNOWN None None 0%Z.

(** The machine holding the objects of [l] and nothing else. *)
Definition machine_of {host : Host} (w : World) (l : list AppInfo) : machine :=
  mkMachine w (store_objects l (fun _ => scanned "" "" "" None)) [] [].

(** Every command exits with the same code and output. *)
Definition exit_host (returncode : Z) (stdout stderr : string) : Host :=
  command_host (fun _ => Completed returncode stdout stderr).

(** Chocolatey is installed and lists two outdated packages. *)
Definition choco_host : Host :=
  command_host
    (fun cmd =>
       match cmd with
       | "choco" :: _ =>
           Completed 0 ("foo|1.2.3.0|1.2.3|false" ++ LF ++ "bar|1|2|false" ++ LF) ""
       | _ => FileNotFoundError
       end).


(** The text [{"foo":{"latest":"2.0.0"}}] and the document it parses to. *)
Definition foo_listing : string :=
  ("{" ++ DQUOTE ++ "foo" ++ DQUOTE ++ ":{" ++ DQUOTE ++ "latest" ++ DQUOTE
       ++ ":" ++ DQUOTE ++ "2.0.0" ++ DQUOTE ++ "}}")%string.

Definition foo_document : json :=
  JDict [("foo", JDict [("latest", JStr "2.0.0")])].

(** [npm outdated -g --json] prints that text and exits with 1, as it
    does when a package is outdated. *)
Definition npm_outdated_host : Host :=
  scripted_host false
    (fun cmd =>
       match cmd with
       | ["npm"; "outdated"; "-g"; "--json"] => Completed 1 (foo_listing ++ LF) ""
       | _ => FileNotFoundError
       end)
    (fun _ => None)
    (fun text => if String.eqb text foo_listing then Some foo_document else None)
    (fun _ _ _ => None).

(* ------------------------------------------------------------------ *)
(** ** More scripted hosts *)
(* ------------------------------------------------------------------ *)

(** No command can be started and no request is answered. *)
Definition silent_host : Host := command_host (fun _ => FileNotFoundError).

(** A clock that stands still. *)
Definition fixed_clock {host : Host} (t : datetime)
  : World -> datetime * World :=
  fun w => (t, w).

(** [choco list] prints two packages and a line that is none. *)
Definition choco_list_host : Host :=
  command_host
    (fun cmd =>
       match cmd with
       | "choco" :: "list" :: _ =>
           Completed 0 ("git | 2.44.0" ++ LF ++ "3 packages installed." ++ LF
                          ++ "nodejs|20.1.0|extra" ++ LF) ""
       | _ => FileNotFoundError
       end).

(** [winget list] prints a table of two rows, one without a version. *)
Definition winget_list_host : Host :=
  command_host
    (fun cmd =>
       match cmd with
       | "winget" :: "list" :: _ =>
           Completed 0 ("Name   Id        Version  Source" ++ LF
                          ++ "---------------------------------" ++ LF
                          ++ "Git    Git.Git   2.44.0   winget" ++ LF
                          ++ "Edge   MS.Edge" ++ LF) ""
       | _ => FileNotFoundError
       end).

(** Only git is on the PATH. *)
Definition git_only_host : Host :=
  scripted_host false
    (fun cmd =>
       match cmd with
       | ["which"; "git"] => Completed 0 ("/usr/bin/git" ++ LF ++ "/bin/git" ++ LF) ""
       | ["git"; "--version"] => Completed 0 ("git version 2.44.0" ++ LF) ""
       | _ => FileNotFoundError
       end)
    (fun _ => None)
    (fun _ => None)
    (fun _ _ text =>
       if String.eqb text "git version 2.44.0" then Some "2.44.0" else None).

(** [winget upgrade] lists a newer Git. *)
Definition winget_upgrade_host : Host :=
  command_host
    (fun cmd =>
       match cmd with
       | "winget" :: "upgrade" :: _ =>
           Completed 0 ("Name   Id        Version  Available  Source" ++ LF
                          ++ "--------------------------------------------" ++ LF
                          ++ "Git    Git.Git   2.44.0   2.45.1     winget" ++ LF) ""
       | _ => FileNotFoundError
       end).

(** The listing commands print a text that is no JSON document. *)
Definition broken_listing_host : Host := exit_host 1 "npm ERR! code EUSAGE" "".

(** [npm install -g foo@2.0.0] succeeds with some output. *)
Definition npm_install_host : Host :=
  command_host
    (fun cmd =>
       match cmd with
       | "npm" :: "install" :: _ => Completed 0 ("changed 1 package" ++ LF) ""
       | _ => FileNotFoundError
       end).

(* ------------------------------------------------------------------ *)
(** ** The vocabulary of the statements *)
(* ------------------------------------------------------------------ *)

(** Every value sits under its own key. *)
Definition keyed (d : dict AppInfo) : Prop :=
  Forall (fun kv => fst kv = dedup_key (snd kv)) d.

Definition dedup_step (d : dict AppInfo) (a : AppInfo) : dict AppInfo :=
  dict_set (dedup_key a) a d.

(** No assignment of the checkers changes these fields. *)
Definition same_key (a a' : AppInfo) : Prop :=
  name a' = name a /\ source a' = source a /\ version a' = version a.

(** From [h] to [h']: only objects of [apps] were assigned to, and every
    object assigned to satisfies [Q] in [h']. *)
Definition touched (apps : list ref) (Q : AppInfo -> Prop) (h h' : heap) : Prop :=
  forall r, same_key (h r) (h' r) /\ (h' r = h r \/ (In r apps /\ Q (h' r))).

(** The guarantees of the assignments. *)
Definition latest_given (a : AppInfo) : Prop :=
  update_status a = UPDATE_AVAILABLE -> latest_version a <> "".

Definition anything (a : AppInfo) : Prop := True.

(** The comparison of the PATH check, read off the item. *)
Definition differs_by_rule (a : AppInfo) : Prop :=
  latest_version a <> ""
  /\ clean (latest_version a) <> clean (version a)
  /\ Text.contains (latest_version a) (version a) = false.

Definition newer_by_rule (a : AppInfo) : Prop :=
  update_status a = UPDATE_AVAILABLE -> differs_by_rule a.

(** What an item marked UpdateAvailable is known to satisfy, by source. *)
Definition guarantee (a : AppInfo) : Prop :=
  update_status a = UPDATE_AVAILABLE ->
  (source a = "PATH" -> differs_by_rule a)
  /\ (source a <> "Chocolatey" -> source a <> "PIP" -> latest_version a <> "").

Definition guarantee_of (s : string) : AppInfo -> Prop :=
  if String.eqb s "PATH" then newer_by_rule
  else if String.eqb s "Chocolatey" || String.eqb s "PIP" then anything
       else latest_given.

(** The line of the dry run for the object at [r]. *)
Definition dry_run_line (h : heap) (r : ref) : report :=
  DryRunLine (name (h r)) (latest_version (h r)).

Section Vocabulary.
Context {host : Host}.

(** Whatever way [c] ends, it has [touched] the store. *)
Definition keeps (apps : list ref) (Q : AppInfo -> Prop) {A} (c : M A) : Prop :=
  forall m, touched apps Q (objects m) (objects (snd (c m))).

(** [fromisoformat] reads back what [isoformat] writes. *)
Definition iso_round_trip : Prop :=
  forall t : datetime, fromisoformat (isoformat t) = Some t.

End Vocabulary.

(* ------------------------------------------------------------------ *)
(** ** Further vocabulary *)
(* ------------------------------------------------------------------ *)

(** One turn of the loop at the end of [scan_registry]. *)
Definition first_step (d : dict AppInfo) (a : AppInfo) : dict AppInfo :=
  match dict_get (dedup_key a) d with
  | None => dict_set (dedup_key a) a d
  | Some _ => d
  end.

(** An item with a verdict: marked UpdateAvailable with a candidate, or
    marked UpToDate. *)
Definition decided (a : AppInfo) : Prop :=
  (update_status a = UPDATE_AVAILABLE /\ latest_version a <> "")
  \/ update_status a = UP_TO_DATE.



Definition is_updated (line : report) : bool :=
  match line with
  | UpdatedLine _ _ => true
  | _ => false
  end.

(** The line a real run prints for the object at [r]. *)
Definition line_of (h : heap) (r : ref) (line : report) : Prop :=
  line = UpdatedLine (name (h r)) (latest_version (h r))
  \/ line = FailedLine (name (h r)).

(** [l1] is [l2] with some elements left out. *)
Inductive subsequence {A : Type} : list A -> list A -> Prop :=
| subsequence_nil : subsequence [] []
| subsequence_skip (x : A) (l1 l2 : list A) :
    subsequence l1 l2 -> subsequence l1 (x :: l2)
| subsequence_keep (x : A) (l1 l2 : list A) :
    subsequence l1 l2 -> subsequence (x :: l1) (x :: l2).

(** An item as a scanner of the source [s] leaves it. *)
Definition fresh_item (s : string) (a : AppInfo) : Prop :=
  source a = s /\ update_status a = UNKNOWN /\ latest_version a = ""
  /\ error_msg a = None.

(** A text that is not empty and has no white space around it. *)
Definition trimmed (s : string) : Prop := s <> "" /\ Text.strip s = s.

(** A JSON value as [json.load] builds it: no dict in it has a key
    twice. *)
Fixpoint distinct_keys (j : json) : Prop :=
  match j with
  | JList l =>
      (fix all (l : list json) : Prop :=
         match l with
         | [] => True
         | x :: l' => distinct_keys x /\ all l'
         end) l
  | JDict d =>
      NoDup (map fst d)
      /\ (fix all (d : list (string * json)) : Prop :=
            match d with
            | [] => True
            | (_, v) :: d' => distinct_keys v /\ all d'
            end) d
  | _ => True
  end.

Definition is_dict (j : json) : bool :=
  match j with
  | JDict _ => true
  | _ => false
  end.

(** The value one turn of the loop of [_merge_settings] leaves at the
    key of [value], [old] being the value of [base] at that key. *)
Definition merged_value (old : option json) (value : json) : json :=
  match old, value with
  | Some (JDict sub), JDict _ => JDict (snd (_merge_settings sub value))
  | _, _ => value
  end.

(** What [_check_path_updates] leaves of an item when no command starts
    and no request is answered: only python, whose candidate then is the
    installed version itself, gets a verdict. *)
Definition silent_path (a : AppInfo) : AppInfo :=
  if String.eqb (name a) "python" && Text.nonempty (version a)
  then set_update_status UP_TO_DATE (set_latest_version (clean (version a)) a)
  else a.

(** What the check phase leaves of an item on such a machine. *)
Definition silent_check (a : AppInfo) : AppInfo :=
  if String.eqb (source a) "Registry" then set_update_status UP_TO_DATE a
  else if String.eqb (source a) "PATH" then silent_path a
  else a.

(* ================================================================== *)
(** * Properties *)
(* ================================================================== *)

(* ------------------------------------------------------------------ *)
(** ** The merge step *)
(* ------------------------------------------------------------------ *)

Section Merge.

Lemma dict_keys_set {V} (k : string) (v : V) (d : dict V) :
  dict_keys (dict_set k v d) =
  if mem_string k (dict_keys d) then dict_keys d else dict_keys d ++ [k].
Proof.
  induction d as [|[k' v'] d IH]; simpl; [reflexivity|].
  rewrite (String.eqb_sym k k').
  destruct (String.eqb_spec k' k) as [->|Hne]; simpl; [reflexivity|].
  unfold dict_keys in *. rewrite IH.
  destruct (mem_string k (map fst d)); reflexivity.
Qed.

Lemma mem_string_In (s : string) (l : list string) :
  mem_string s l = true <-> In s l.
Proof.
  unfold mem_string. rewrite existsb_exists. split.
  - intros [x [Hin Heq]]. apply String.eqb_eq in Heq. now subst.
  - intros Hin. exists s. split; [assumption|apply String.eqb_refl].
Qed.

Lemma dict_set_NoDup {V} (k : string) (v : V) (d : dict V) :
  NoDup (dict_keys d) -> NoDup (dict_keys (dict_set k v d)).
Proof.
  intros Hnd. rewrite dict_keys_set.
  destruct (mem_string k (dict_keys d)) eqn:Hmem; [assumption|].
  apply NoDup_app; [assumption|repeat constructor; intros []|].
  intros x Hin [<-|[]].
  apply mem_string_In in Hin. congruence.
Qed.

Lemma dict_set_keyed (a : AppInfo) (d : dict AppInfo) :
  keyed d -> keyed (dict_set (dedup_key a) a d).
Proof.
  unfold keyed. induction d as [|[k' v'] d IH]; simpl; intros H.
  - repeat constructor.
  - inversion H; subst.
    destruct (String.eqb k' (dedup_key a)); constructor; auto.
Qed.

Lemma dict_set_values_incl {V} (k : string) (v : V) (d : dict V) (x : V) :
  In x (dict_values (dict_set k v d)) -> x = v \/ In x (dict_values d).
Proof.
  induction d as [|[k' v'] d IH]; simpl.
  - intros [<-|[]]. now left.
  - destruct (String.eqb k' k); simpl.
    + intros [<-|H]; auto.
    + intros [<-|H]; auto. destruct (IH H); auto.
Qed.

Lemma dedup_fold_invariant (apps : list AppInfo) (d : dict AppInfo) :
  NoDup (dict_keys d) -> keyed d ->
  NoDup (dict_keys (fold_left dedup_step apps d))
  /\ keyed (fold_left dedup_step apps d)
  /\ (forall x, In x (dict_values (fold_left dedup_step apps d)) ->
                In x apps \/ In x (dict_values d)).
Proof.
  revert d. induction apps as [|a apps IH]; simpl; intros d Hnd Hk.
  - auto.
  - destruct (IH (dedup_step d a)) as (H1 & H2 & H3).
    + now apply dict_set_NoDup.
    + now apply dict_set_keyed.
    + repeat split; auto.
      intros x Hx. destruct (H3 x Hx) as [H|H]; auto.
      apply dict_set_values_incl in H. destruct H as [->|H]; auto.
Qed.

Lemma keyed_keys (d : dict AppInfo) :
  keyed d -> map dedup_key (dict_values d) = dict_keys d.
Proof.
  unfold keyed, dict_values, dict_keys. induction 1; simpl; congruence.
Qed.

(** The keys of the retained items are pairwise distinct. *)
Lemma run_dedup_NoDup (apps : list AppInfo) :
  NoDup (map dedup_key (run_dedup apps)).
Proof.
  unfold run_dedup.
  destruct (dedup_fold_invariant apps (d:=[])) as (H1 & H2 & _);
    [constructor|constructor|].
  change (fun d a => dict_set (dedup_key a) a d) with dedup_step.
  now rewrite keyed_keys.
Qed.

Lemma run_dedup_incl (apps : list AppInfo) (x : AppInfo) :
  In x (run_dedup apps) -> In x apps.
Proof.
  unfold run_dedup.
  destruct (dedup_fold_invariant apps (d:=[])) as (_ & _ & H3);
    [constructor|constructor|].
  intros H. destruct (H3 x H) as [|[]]. assumption.
Qed.

Lemma dict_get_set {V} (k k' : string) (v : V) (d : dict V) :
  dict_get k (dict_set k' v d) = if String.eqb k' k then Some v else dict_get k d.
Proof.
  induction d as [|[k0 v0] d IH]; simpl.
  - destruct (String.eqb k' k); reflexivity.
  - destruct (String.eqb_spec k0 k') as [->|Hne]; simpl.
    + destruct (String.eqb k' k); reflexivity.
    + rewrite IH. destruct (String.eqb_spec k0 k) as [->|Hne'];
        [|reflexivity].
      destruct (String.eqb_spec k' k); [congruence|reflexivity].
Qed.

Lemma find_last {A} (p : A -> bool) (l : list A) (x : A) :
  List.find p (l ++ [x]) =
  match List.find p l with
  | Some y => Some y
  | None => if p x then Some x else None
  end.
Proof.
  induction l as [|y l IH]; simpl; [reflexivity|].
  destruct (p y); [reflexivity|exact IH].
Qed.

(** The value under a key, after the comprehension: the last item of
    the list that has the key. *)
Lemma dedup_fold_get (apps : list AppInfo) :
  forall (d : dict AppInfo) (k : string),
    dict_get k (fold_left dedup_step apps d) =
    match List.find (fun a => String.eqb (dedup_key a) k) (rev apps) with
    | Some a => Some a
    | None => dict_get k d
    end.
Proof.
  induction apps as [|a apps IH]; simpl; intros d k; [reflexivity|].
  rewrite IH, find_last. unfold dedup_step. rewrite dict_get_set.
  destruct (List.find _ (rev apps)); [reflexivity|].
  destruct (String.eqb (dedup_key a) k); reflexivity.
Qed.

Lemma keyed_values_get (d : dict AppInfo) (x : AppInfo) :
  keyed d -> NoDup (dict_keys d) ->
  (In x (dict_values d) <-> dict_get (dedup_key x) d = Some x).
Proof.
  unfold keyed, dict_values, dict_keys.
  induction d as [|[k v] d IH]; simpl; intros Hk Hnd.
  - split; [intros []|discriminate].
  - inversion Hk as [|? ? Hkv Hk']; subst. simpl in Hkv. subst k.
    inversion Hnd as [|? ? Hnotin Hnd']; subst.
    destruct (String.eqb_spec (dedup_key v) (dedup_key x)) as [He|Hne].
    + split.
      * intros [->|Hin]; [reflexivity|].
        exfalso. apply Hnotin. rewrite He.
        pose proof (keyed_keys Hk') as E.
        unfold dict_values, dict_keys in E. rewrite <- E.
        now apply in_map.
      * intros H. left. congruence.
    + rewrite <- (IH Hk' Hnd'). split.
      * intros [->|Hin]; [contradiction Hne; reflexivity|assumption].
      * intros Hin. now right.
Qed.

(** An item is retained exactly when it is the last item of the list
    with its name and version. *)
Lemma run_dedup_keeps_last (apps : list AppInfo) (x : AppInfo) :
  In x (run_dedup apps) <->
  List.find (fun a => String.eqb (dedup_key a) (dedup_key x)) (rev apps) = Some x.
Proof.
  unfold run_dedup.
  change (fun d a => dict_set (dedup_key a) a d) with dedup_step.
  destruct (dedup_fold_invariant apps (d:=[])) as (H1 & H2 & _);
    [constructor|constructor|].
  rewrite (keyed_values_get x H2 H1), dedup_fold_get. simpl.
  destruct (List.find _ (rev apps)); split; congruence.
Qed.

(** *** The stable sort *)

Variable A : Type.
Variable le : A -> A -> bool.
Hypothesis le_total : forall x y, le x y = true \/ le y x = true.

Lemma sorted_insert_perm (x : A) (l : list A) :
  Permutation (x :: l) (sorted_insert le x l).
Proof.
  induction l as [|y l IH]; simpl; [reflexivity|].
  destruct (le x y); [reflexivity|].
  rewrite perm_swap. now constructor.
Qed.

Lemma sorted_perm (l : list A) : Permutation l (sorted le l).
Proof.
  induction l as [|x l IH]; simpl; [constructor|].
  rewrite <- sorted_insert_perm. now constructor.
Qed.

Lemma sorted_insert_Sorted (x : A) (l : list A) :
  Sorted (fun a b => le a b = true) l ->
  Sorted (fun a b => le a b = true) (sorted_insert le x l).
Proof.
  induction l as [|y l IH]; simpl; intros Hs.
  - repeat constructor.
  - destruct (le x y) eqn:Hxy.
    + constructor; [assumption|constructor; assumption].
    + inversion Hs as [|? ? Hs' Hhd]; subst.
      constructor; [auto|].
      destruct l as [|z l]; simpl.
      * constructor. destruct (le_total x y); congruence.
      * destruct (le x z); constructor.
        -- destruct (le_total x y); congruence.
        -- now inversion Hhd.
Qed.

Lemma sorted_Sorted (l : list A) :
  Sorted (fun a b => le a b = true) (sorted le l).
Proof.
  induction l as [|x l IH]; simpl; [constructor|].
  now apply sorted_insert_Sorted.
Qed.

End Merge.

Lemma source_name_le_total (a b : AppInfo) :
  source_name_le a b = true \/ source_name_le b a = true.
Proof.
  unfold source_name_le.
  rewrite (String.compare_antisym (source a) (source b)).
  destruct (String.compare (source b) (source a)); simpl; auto.
  apply String.leb_total.
Qed.

(** The merged list holds each key [name|version] once, holds only
    scanned items, and is ordered by [(source, name)]. *)
Lemma run_merge_unique_sorted (all_apps : list AppInfo) :
  NoDup (map dedup_key (run_merge all_apps))
  /\ (forall x, In x (run_merge all_apps) -> In x all_apps)
  /\ Sorted (fun a b => source_name_le a b = true) (run_merge all_apps).
Proof.
  unfold run_merge, run_sort. repeat split.
  - eapply Permutation_NoDup; [|apply run_dedup_NoDup].
    apply Permutation_map, sorted_perm.
  - intros x Hx. apply run_dedup_incl.
    eapply Permutation_in; [symmetry; apply sorted_perm|exact Hx].
  - apply sorted_Sorted, source_name_le_total.
Qed.

(** Two retained items never agree on both name and version. *)
Lemma run_merge_no_duplicates (all_apps : list AppInfo) (i j : nat) (a b : AppInfo) :
  nth_error (run_merge all_apps) i = Some a ->
  nth_error (run_merge all_apps) j = Some b ->
  name a = name b -> version a = version b -> i = j.
Proof.
  intros Hi Hj Hn Hv.
  destruct (run_merge_unique_sorted all_apps) as (Hnd & _ & _).
  assert (Hk : dedup_key a = dedup_key b) by (unfold dedup_key; congruence).
  eapply (proj1 (NoDup_nth_error _) Hnd).
  - apply nth_error_Some. rewrite (nth_error_map), Hi. discriminate.
  - rewrite !nth_error_map, Hi, Hj. simpl. congruence.
Qed.

(** C1. The merge keeps, of two scanned items with the same name and
    version, the one scanned last: with Git found by Winget and then by
    the registry scan, the registry item is retained, where the spec (and
    the deduplication at the end of [scan_registry]) keeps the first. *)
Theorem C1_run_merge_keeps_last_occurrence :
  let first := scanned "Git" "Winget" "2.44.0" (Some "Git.Git") in
  let second := scanned "Git" "Registry" "2.44.0" None in
  name first = name second
  /\ version first = version second
  /\ run_merge [first; second] = [second]
  /\ scan_registry_unique [first; second] = [first].
Proof. vm_compute. repeat split. Qed.

(** C10. The key [name|version] is not injective: two items that differ
    in name and in version are merged into one. *)
Theorem C10_dedup_key_collision :
  exists a b : AppInfo,
    (name a, version a) <> (name b, version b)
    /\ name a = "a|b" /\ version a = "c"
    /\ name b = "a" /\ version b = "b|c"
    /\ dedup_key a = dedup_key b
    /\ run_merge [a; b] = [b]
    /\ length (run_merge [a; b]) = 1.
Proof.
  exists (scanned "a|b" "Registry" "c" None), (scanned "a" "Registry" "b|c" None).
  repeat split; try reflexivity.
  simpl. intros H. discriminate H.
Qed.

(* ------------------------------------------------------------------ *)
(** ** The store *)
(* ------------------------------------------------------------------ *)

Lemma modify_same (r : ref) (f : AppInfo -> AppInfo) (h : heap) :
  modify r f h r = f (h r).
Proof. unfold modify. now rewrite Nat.eqb_refl. Qed.

Lemma modify_other (r r' : ref) (f : AppInfo -> AppInfo) (h : heap) :
  r' <> r -> modify r f h r' = h r'.
Proof.
  intros Hne. unfold modify.
  destruct (Nat.eqb_spec r' r); [contradiction|reflexivity].
Qed.

(** A loop that applies an idempotent assignment to every listed object
    applies it once to each of them and leaves the others alone. *)
Lemma modify_each (f : AppInfo -> AppInfo) (apps : list ref) :
  (forall a, f (f a) = f a) ->
  forall (h : heap) (r : ref),
    fold_left (fun h r => modify r f h) apps h r =
    if existsb (Nat.eqb r) apps then f (h r) else h r.
Proof.
  intros Hidem. induction apps as [|x apps IH]; simpl; intros h r.
  - reflexivity.
  - rewrite IH. destruct (Nat.eqb_spec r x) as [->|Hne]; simpl.
    + rewrite modify_same.
      match goal with
      | |- context [existsb ?p apps] => destruct (existsb p apps)
      end; auto.
    + now rewrite modify_other.
Qed.

Lemma existsb_eqb_In (r : ref) (apps : list ref) :
  existsb (Nat.eqb r) apps = true <-> In r apps.
Proof.
  rewrite existsb_exists. split.
  - intros [x [Hin Heq]]. apply Nat.eqb_eq in Heq. now subst.
  - intros Hin. exists r. split; [assumption|apply Nat.eqb_refl].
Qed.

(* ------------------------------------------------------------------ *)
(** ** Reconciliation *)
(* ------------------------------------------------------------------ *)

Lemma reconcile_idempotent (a : AppInfo) : reconcile (reconcile a) = reconcile a.
Proof.
  unfold reconcile.
  destruct (update_status a) eqn:Hs; try (now rewrite Hs);
    simpl; destruct (_ || _) eqn:Hc; simpl; try reflexivity;
    now rewrite Hc.
Qed.

Lemma reconcile_all_at (apps : list ref) (h : heap) (r : ref) :
  reconcile_all apps h r = if existsb (Nat.eqb r) apps then reconcile (h r) else h r.
Proof. apply modify_each, reconcile_idempotent. Qed.

Lemma known_source_checked (s : string) :
  In s known_sources -> s <> "PATH" -> mem_string s checked_sources = true.
Proof.
  unfold known_sources. simpl.
  intros H Hne.
  repeat (destruct H as [<-|H]; [try reflexivity; now contradiction Hne|]).
  destruct H.
Qed.


(** C3. The second loop of [check_all_updates], on an item of the list
    whose source is one of the nine the scanners write: an item marked
    UpdateAvailable or UpToDate is left as it is; any other item becomes
    UpToDate when its [latest_version] is not empty or its source is not
    PATH, and Unknown otherwise; nothing but the status changes, and
    objects outside the list are not touched. *)
Theorem C3_reconciliation_policy (apps : list ref) (h : heap) (r : ref) :
  In r apps ->
  In (source (h r)) known_sources ->
  let a := h r in
  let a' := reconcile_all apps h r in
  (update_status a = UPDATE_AVAILABLE \/ update_status a = UP_TO_DATE -> a' = a)
  /\ (update_status a <> UPDATE_AVAILABLE -> update_status a <> UP_TO_DATE ->
      latest_version a <> "" \/ source a <> "PATH" ->
      a' = set_update_status UP_TO_DATE a)
  /\ (update_status a <> UPDATE_AVAILABLE -> update_status a <> UP_TO_DATE ->
      latest_version a = "" -> source a = "PATH" ->
      a' = set_update_status UNKNOWN a)
  /\ (forall r', ~ In r' apps -> reconcile_all apps h r' = h r').
Proof.
  intros Hin Hsrc a a'. subst a a'.
  rewrite reconcile_all_at.
  rewrite (proj2 (existsb_eqb_In r apps) Hin).
  unfold reconcile. repeat split.
  - intros [Hs|Hs]; now rewrite Hs.
  - intros H1 H2 Hc.
    assert (Hor : Text.nonempty (latest_version (h r))
                  || mem_string (source (h r)) checked_sources = true).
    { destruct Hc as [Hl|Hp].
      - destruct (latest_version (h r)); [contradiction|reflexivity].
      - rewrite (known_source_checked Hsrc Hp). apply orb_true_r. }
    rewrite Hor. destruct (update_status (h r)); congruence.
  - intros H1 H2 Hl Hp. rewrite Hl, Hp. simpl.
    destruct (update_status (h r)); congruence.
  - intros r' Hn. rewrite reconcile_all_at.
    destruct (existsb (Nat.eqb r') apps) eqn:He; [|reflexivity].
    apply existsb_eqb_In in He. contradiction.
Qed.

(* ------------------------------------------------------------------ *)
(** ** What a check may do to the store *)
(* ------------------------------------------------------------------ *)

Lemma same_key_refl (a : AppInfo) : same_key a a.
Proof. repeat split. Qed.

Lemma same_key_trans (a b c : AppInfo) :
  same_key a b -> same_key b c -> same_key a c.
Proof. unfold same_key. intuition congruence. Qed.

Lemma touched_refl (apps : list ref) (Q : AppInfo -> Prop) (h : heap) :
  touched apps Q h h.
Proof. intros r. split; [apply same_key_refl|now left]. Qed.

Lemma touched_trans (apps : list ref) (Q : AppInfo -> Prop) (h1 h2 h3 : heap) :
  touched apps Q h1 h2 -> touched apps Q h2 h3 -> touched apps Q h1 h3.
Proof.
  intros H12 H23 r.
  destruct (H12 r) as [K12 C12], (H23 r) as [K23 C23].
  split; [eapply same_key_trans; eassumption|].
  destruct C23 as [E23|C23]; [|now right].
  rewrite E23. exact C12.
Qed.

Lemma touched_modify (apps : list ref) (Q : AppInfo -> Prop) (h : heap)
      (r : ref) (f : AppInfo -> AppInfo) :
  In r apps -> (forall a, same_key a (f a) /\ Q (f a)) ->
  touched apps Q h (modify r f h).
Proof.
  intros Hin Hf r'. unfold modify.
  destruct (Nat.eqb_spec r' r) as [->|Hne].
  - destruct (Hf (h r)). auto.
  - split; [apply same_key_refl|now left].
Qed.

Lemma touched_weaken (apps apps' : list ref) (Q Q' : AppInfo -> Prop) (h h' : heap) :
  (forall r, In r apps -> Q (h' r) -> In r apps' /\ Q' (h' r)) ->
  touched apps Q h h' -> touched apps' Q' h h'.
Proof.
  intros Hw H r. destruct (H r) as [K [E|[Hin HQ]]]; (split; [exact K|]).
  - now left.
  - right. now apply Hw.
Qed.

Lemma touched_fold_left {X} (apps : list ref) (Q : AppInfo -> Prop)
      (step : heap * nat -> X -> heap * nat) (l : list X) (st : heap * nat) :
  (forall st x, In x l -> touched apps Q (fst st) (fst (step st x))) ->
  touched apps Q (fst st) (fst (fold_left step l st)).
Proof.
  revert st. induction l as [|x l IH]; simpl; intros st Hstep.
  - apply touched_refl.
  - eapply touched_trans; [apply Hstep; now left|].
    apply IH. intros st' x' Hin. apply Hstep. now right.
Qed.

Lemma touched_fold_until {X} (apps : list ref) (Q : AppInfo -> Prop)
      (step : heap * nat -> X -> flow (heap * nat)) (l : list X)
      (st : heap * nat) :
  (forall st x, In x l ->
                touched apps Q (fst st) (fst (flow_state (step st x)))) ->
  touched apps Q (fst st) (fst (flow_state (fold_until step l st))).
Proof.
  revert st. induction l as [|x l IH]; simpl; intros st Hstep.
  - apply touched_refl.
  - pose proof (Hstep st x (or_introl eq_refl)) as H1.
    destruct (step st x) as [st'|st']; simpl in *; [|exact H1].
    eapply touched_trans; [exact H1|].
    apply IH. intros st'' x' Hin. apply Hstep. now right.
Qed.

Lemma nonempty_neq (s : string) : Text.nonempty s = true -> s <> "".
Proof. destruct s; simpl; congruence. Qed.

Lemma mark_update_latest_given (latest : string) (a : AppInfo) :
  Text.nonempty latest = true ->
  same_key a (mark_update latest a) /\ latest_given (mark_update latest a).
Proof.
  intros Hl. split; [repeat split|].
  intros _. simpl. now apply nonempty_neq.
Qed.

Lemma up_to_date_latest_given (a : AppInfo) :
  same_key a (set_update_status UP_TO_DATE a)
  /\ latest_given (set_update_status UP_TO_DATE a).
Proof. split; [repeat split|]. intros H. discriminate H. Qed.

Lemma touched_count_update (apps : list ref) (Q : AppInfo -> Prop)
      (r : ref) (latest : string) (st : heap * nat) :
  In r apps ->
  (forall a, same_key a (mark_update latest a) /\ Q (mark_update latest a)) ->
  touched apps Q (fst st) (fst (count_update r latest st)).
Proof. intros Hin HQ. unfold count_update. simpl. now apply touched_modify. Qed.

Lemma touched_count_update_any (apps : list ref)
      (r : ref) (latest : string) (st : heap * nat) :
  In r apps -> touched apps anything (fst st) (fst (count_update r latest st)).
Proof.
  intros Hin. apply touched_count_update; [assumption|].
  intros a. split; [repeat split|exact I].
Qed.

(** *** The blocks that only assign *)

Lemma winget_upgrades_touched (apps : list ref) (output : string) (h : heap) :
  touched apps latest_given h (fst (winget_upgrades apps output h)).
Proof.
  unfold winget_upgrades.
  destruct (first_index _ _) as [i|]; [|apply touched_refl].
  apply (touched_fold_left _ _ (h, 0)). intros st line _.
  unfold winget_row.
  destruct (negb (Text.nonempty (Text.strip line))); [apply touched_refl|].
  destruct (negb _); [|apply touched_refl].
  destruct (_ && _) eqn:Hg; [|apply touched_refl].
  apply andb_true_iff in Hg. destruct Hg as [_ Hl].
  apply touched_fold_left. intros st' r Hin.
  destruct (id_matches _ _); [|apply touched_refl].
  apply touched_count_update; [assumption|].
  intros a. now apply mark_update_latest_given.
Qed.

Lemma mark_all_up_to_date_touched (apps : list ref) (h : heap) :
  touched apps latest_given h (mark_all_up_to_date apps h).
Proof.
  unfold mark_all_up_to_date.
  assert (H : forall l h, incl l apps ->
              touched apps latest_given h
                (fold_left (fun h r => modify r (set_update_status UP_TO_DATE) h) l h)).
  { induction l as [|x l IH]; simpl; intros h' Hincl; [apply touched_refl|].
    eapply touched_trans; [|apply IH; intros y Hy; apply Hincl; now right].
    apply touched_modify; [apply Hincl; now left|].
    apply up_to_date_latest_given. }
  apply H, incl_refl.
Qed.

Lemma registry_upgrades_touched (apps : list ref) (output : string) (h : heap) :
  touched apps latest_given h (fst (registry_upgrades apps output h)).
Proof.
  unfold registry_upgrades.
  destruct (first_index _ _) as [i|]; simpl;
    [|apply mark_all_up_to_date_touched].
  apply (touched_fold_left _ _ (h, 0)). intros st r Hin.
  destruct (dict_get _ _) as [[|c latest]|]; simpl;
    try (apply touched_modify; [assumption|apply up_to_date_latest_given]).
  apply touched_count_update; [assumption|].
  intros a. now apply mark_update_latest_given.
Qed.

Lemma choco_outdated_touched (apps : list ref) (output : string) (h : heap) :
  touched apps anything h (fst (choco_outdated apps output h)).
Proof.
  unfold choco_outdated.
  apply (touched_fold_left _ _ (h, 0)). intros st line _.
  unfold choco_row. destruct (3 <=? _); [|apply touched_refl].
  apply touched_fold_left. intros st' r Hin.
  destruct (String.eqb _ _); [|apply touched_refl].
  now apply touched_count_update_any.
Qed.

Lemma assign_latest_touched (apps : list ref) (r : ref) (j : json)
      (st : heap * nat) :
  In r apps -> json_truthy j = true ->
  touched apps latest_given (fst st) (fst (flow_state (assign_latest r j st))).
Proof.
  intros Hin Ht. unfold assign_latest.
  destruct j; simpl in *; try discriminate; try apply touched_refl.
  apply touched_modify; [assumption|].
  intros a. now apply mark_update_latest_given.
Qed.

Lemma assign_latest_touched_any (apps : list ref) (r : ref) (j : json)
      (st : heap * nat) :
  In r apps ->
  touched apps anything (fst st) (fst (flow_state (assign_latest r j st))).
Proof.
  intros Hin. unfold assign_latest.
  destruct (latest_text j); simpl; [|apply touched_refl].
  now apply touched_count_update_any.
Qed.

Lemma npm_outdated_touched (apps : list ref) (data : json) (h : heap) :
  touched apps latest_given h (fst (npm_outdated apps data h)).
Proof.
  unfold npm_outdated. destruct data; try apply touched_refl.
  apply (touched_fold_until _ _ (h, 0)). intros st entry _.
  unfold npm_entry. apply touched_fold_until. intros st' r Hin.
  destruct (String.eqb _ _); [|apply touched_refl].
  destruct (snd entry); try apply touched_refl.
  destruct (json_truthy _) eqn:Ht; [|apply touched_refl].
  now apply assign_latest_touched.
Qed.

Lemma pnpm_outdated_touched (apps : list ref) (data : json) (h : heap) :
  touched apps latest_given h (fst (pnpm_outdated apps data h)).
Proof.
  unfold pnpm_outdated. destruct data; try apply touched_refl.
  - apply (touched_fold_until _ _ (h, 0)). intros st item _.
    unfold pnpm_item. destruct item; try apply touched_refl.
    apply touched_fold_until. intros st' r Hin.
    destruct (name_is _ _); [|apply touched_refl].
    destruct (json_truthy _) eqn:Ht; [|apply touched_refl].
    now apply assign_latest_touched.
  - apply (touched_fold_until _ _ (h, 0)). intros st entry _.
    unfold pnpm_entry. apply touched_fold_until. intros st' r Hin.
    destruct (String.eqb _ _); [|apply touched_refl].
    destruct (snd entry); try apply touched_refl.
    destruct (json_truthy _) eqn:Ht; [|apply touched_refl].
    now apply assign_latest_touched.
Qed.

Lemma pip_outdated_touched (apps : list ref) (data : json) (h : heap) :
  touched apps anything h (fst (pip_outdated apps data h)).
Proof.
  unfold pip_outdated. destruct data; try apply touched_refl.
  apply (touched_fold_until _ _ (h, 0)). intros st item _.
  unfold pip_item. destruct item; try apply touched_refl.
  apply touched_fold_until. intros st' r Hin.
  destruct (name_is _ _); [|apply touched_refl].
  now apply assign_latest_touched_any.
Qed.

(* ------------------------------------------------------------------ *)
(** ** The comparison of the PATH check *)
(* ------------------------------------------------------------------ *)

Lemma digit_not_space (c : ascii) :
  Text.is_digit c = true -> Text.is_space c = false.
Proof.
  destruct c as [[] [] [] [] [] [] [] []]; vm_compute; congruence.
Qed.

Lemma rstrip_idempotent (s : string) : Text.rstrip (Text.rstrip s) = Text.rstrip s.
Proof.
  induction s as [|c s IH]; simpl; [reflexivity|].
  destruct (Text.rstrip s) as [|c' r] eqn:Hr.
  - destruct (Text.is_space c) eqn:Hc; simpl; [reflexivity|].
    now rewrite Hc.
  - simpl in IH. simpl.
    destruct (Text.rstrip r) as [|c'' r'] eqn:Hr'.
    + destruct (Text.is_space c'); [discriminate IH|]. now rewrite IH.
    + now rewrite IH.
Qed.

(** What [re.sub(r'^[^\d]+', '', v)] returns: [v] without its longest
    prefix free of digits. *)
Lemma sub_nondigit_prefix_spec (v : string) :
  exists p : string,
    v = (p ++ Text.sub_nondigit_prefix v)%string
    /\ Forall (fun c => Text.is_digit c = false) (list_ascii_of_string p)
    /\ match Text.sub_nondigit_prefix v with
       | EmptyString => True
       | String c _ => Text.is_digit c = true
       end.
Proof.
  induction v as [|c v (p & Hv & Hp & Hd)]; simpl.
  - exists "". repeat split. constructor.
  - destruct (Text.is_digit c) eqn:Hc.
    + exists "". repeat split; [constructor|assumption].
    + exists (String c p). simpl. repeat split.
      * now rewrite <- Hv.
      * now constructor.
      * exact Hd.
Qed.

Lemma clean_head (v : string) :
  match clean v with
  | EmptyString => True
  | String c _ => Text.is_digit c = true
  end.
Proof.
  unfold clean, Text.strip.
  destruct (sub_nondigit_prefix_spec v) as (_ & _ & _ & Hd).
  destruct (Text.sub_nondigit_prefix v) as [|c t]; simpl; [exact I|].
  rewrite (digit_not_space _ Hd). simpl.
  destruct (Text.rstrip t); [|exact Hd].
  now rewrite (digit_not_space _ Hd).
Qed.

Lemma clean_idempotent (v : string) : clean (clean v) = clean v.
Proof.
  pose proof (clean_head v) as Hh.
  destruct (clean v) as [|c t] eqn:Hv; [reflexivity|].
  unfold clean at 1. simpl. rewrite Hh.
  unfold Text.strip. simpl. rewrite (digit_not_space _ Hh).
  rewrite <- Hv. unfold clean, Text.strip. apply rstrip_idempotent.
Qed.

Lemma contains_empty (s : string) : Text.contains "" s = true.
Proof. destruct s; reflexivity. Qed.

(** The objects [path_decide] leaves behind. *)
Lemma path_decide_at (r : ref) (latest : string) (st : heap * nat) :
  let a := fst st r in
  fst (path_decide r latest st) r =
  set_update_status
    (if is_newer (version a) latest then UPDATE_AVAILABLE else UP_TO_DATE)
    (set_latest_version (clean latest) a)
  /\ snd (path_decide r latest st) =
     (if is_newer (version a) latest then S (snd st) else snd st)
  /\ forall r', r' <> r -> fst (path_decide r latest st) r' = fst st r'.
Proof.
  unfold path_decide. simpl.
  destruct (is_newer _ _); simpl; repeat split;
    try (now rewrite !modify_same);
    intros r' Hne; now rewrite !modify_other.
Qed.

Lemma is_newer_rule (installed latest : string) :
  is_newer installed latest = true ->
  clean latest <> ""
  /\ clean (clean latest) <> clean installed
  /\ Text.contains (clean latest) installed = false.
Proof.
  unfold is_newer. intros H. apply andb_true_iff in H. destruct H as [H1 H2].
  apply negb_true_iff in H1, H2. apply String.eqb_neq in H1.
  repeat split.
  - intros He. rewrite He, contains_empty in H2. discriminate.
  - now rewrite clean_idempotent.
  - exact H2.
Qed.

Lemma path_decide_touched (apps : list ref) (r : ref) (latest : string)
      (st : heap * nat) :
  In r apps ->
  touched apps newer_by_rule (fst st) (fst (path_decide r latest st)).
Proof.
  intros Hin r'.
  destruct (path_decide_at r latest st) as (Hat & _ & Hother).
  destruct (Nat.eq_dec r' r) as [->|Hne].
  - rewrite Hat. split; [repeat split|].
    right. split; [assumption|].
    intros Hs. simpl in Hs.
    destruct (is_newer _ _) eqn:Hn; [|discriminate Hs].
    apply is_newer_rule in Hn. exact Hn.
  - rewrite (Hother r' Hne). split; [apply same_key_refl|now left].
Qed.

(* ------------------------------------------------------------------ *)
(** ** The checks as computations *)
(* ------------------------------------------------------------------ *)

Section Effects.
Context {host : Host}.

Variable apps : list ref.
Variable Q : AppInfo -> Prop.

Lemma keeps_ret {A} (a : A) : keeps apps Q (ret a).
Proof. intros m. apply touched_refl. Qed.

Lemma keeps_raise {A} : keeps apps Q (@raise _ A).
Proof. intros m. apply touched_refl. Qed.

Lemma keeps_bind {A B} (c : M A) (k : A -> M B) :
  keeps apps Q c -> (forall a, keeps apps Q (k a)) -> keeps apps Q (bind c k).
Proof.
  intros Hc Hk m. unfold bind. specialize (Hc m).
  destruct (c m) as [[a|] m1]; simpl in *; [|exact Hc].
  eapply touched_trans; [exact Hc|apply Hk].
Qed.

Lemma keeps_catch {A} (c h : M A) :
  keeps apps Q c -> keeps apps Q h -> keeps apps Q (catch c h).
Proof.
  intros Hc Hh m. unfold catch. specialize (Hc m).
  destruct (c m) as [[a|] m1]; simpl in *; [exact Hc|].
  eapply touched_trans; [exact Hc|apply Hh].
Qed.

Lemma keeps_run_command (cmd : list string) (t : Z) (b1 b2 : bool) :
  keeps apps Q (run_command cmd t b1 b2).
Proof.
  intros m. unfold run_command.
  destruct (resolve_executable _ _); [|apply touched_refl].
  destruct (spawn _ _ _). apply touched_refl.
Qed.

Lemma keeps_fetch_json (url : string) : keeps apps Q (fetch_json url).
Proof.
  intros m. unfold fetch_json. destruct (urlopen _ _). apply touched_refl.
Qed.

Lemma keeps_get_objects : keeps apps Q get_objects.
Proof. intros m. apply touched_refl. Qed.

Lemma keeps_print (r : report) : keeps apps Q (print r).
Proof. intros m. apply touched_refl. Qed.

Lemma keeps_lift_res {A} (r : res A) : keeps apps Q (lift_res r).
Proof. intros m. apply touched_refl. Qed.

Lemma keeps_on_objects (f : heap -> heap * nat) :
  (forall h, touched apps Q h (fst (f h))) -> keeps apps Q (on_objects f).
Proof.
  intros Hf m. unfold on_objects. specialize (Hf (objects m)).
  destruct (f (objects m)). exact Hf.
Qed.

Lemma keeps_for_acc {X B} (l : list X) (body : X -> B -> M B) (acc : B) :
  (forall x acc, In x l -> keeps apps Q (body x acc)) ->
  keeps apps Q (for_acc l acc body).
Proof.
  revert acc. induction l as [|x l IH]; simpl; intros acc Hb.
  - apply keeps_ret.
  - apply keeps_bind; [apply Hb; now left|].
    intros acc'. apply IH. intros x' acc'' Hin. apply Hb. now right.
Qed.

End Effects.

Section CheckerEffects.
Context {host : Host}.

(** After a command, the branch on its output. *)
Ltac after_command :=
  apply keeps_bind; [apply keeps_run_command|];
  intros [[|? ?]|]; try apply keeps_ret.

Ltac after_loads :=
  match goal with
  | |- keeps _ _ (match json_loads ?t with _ => _ end) =>
      destruct (json_loads t); [|apply keeps_ret]
  end.

Lemma _check_winget_updates_keeps (apps : list ref) :
  keeps apps latest_given (_check_winget_updates apps).
Proof.
  unfold _check_winget_updates. after_command.
  apply keeps_on_objects. intros h. apply winget_upgrades_touched.
Qed.

Lemma _check_registry_updates_keeps (apps : list ref) :
  keeps apps latest_given (_check_registry_updates apps).
Proof.
  unfold _check_registry_updates.
  apply keeps_bind; [apply keeps_run_command|].
  intros [[|? ?]|]; apply keeps_on_objects; intros h; simpl;
    try apply mark_all_up_to_date_touched.
  apply registry_upgrades_touched.
Qed.

Lemma _check_choco_updates_keeps (apps : list ref) :
  keeps apps anything (_check_choco_updates apps).
Proof.
  unfold _check_choco_updates. after_command.
  apply keeps_on_objects. intros h. apply choco_outdated_touched.
Qed.

Lemma _check_npm_updates_keeps (apps : list ref) :
  keeps apps latest_given (_check_npm_updates apps).
Proof.
  unfold _check_npm_updates. after_command. after_loads.
  apply keeps_on_objects. intros h. apply npm_outdated_touched.
Qed.

Lemma _check_pnpm_updates_keeps (apps : list ref) :
  keeps apps latest_given (_check_pnpm_updates apps).
Proof.
  unfold _check_pnpm_updates. after_command. after_loads.
  apply keeps_on_objects. intros h. apply pnpm_outdated_touched.
Qed.

Lemma _check_pip_updates_keeps (apps : list ref) :
  keeps apps anything (_check_pip_updates apps).
Proof.
  unfold _check_pip_updates. after_command. after_loads.
  apply keeps_on_objects. intros h. apply pip_outdated_touched.
Qed.

Lemma npm_info_keeps (apps : list ref) :
  keeps apps latest_given (for_acc apps 0 npm_info_step).
Proof.
  apply keeps_for_acc. intros r updates Hin.
  unfold npm_info_step.
  apply keeps_bind; [apply keeps_get_objects|]. intros h.
  apply keeps_bind; [apply keeps_run_command|].
  intros [[|c s]|]; try apply keeps_ret.
  apply keeps_on_objects. intros h'.
  destruct (_ && _) eqn:Hg; [|apply touched_refl].
  apply andb_true_iff in Hg. destruct Hg as [Hg _].
  apply andb_true_iff in Hg. destruct Hg as [Hl _].
  apply (@touched_count_update apps latest_given r (Text.strip (String c s)) (h', updates));
    [assumption|].
  intros a. now apply mark_update_latest_given.
Qed.

(** Finding the candidate assigns to no object. *)
Lemma path_latest_keeps (apps : list ref) (Q : AppInfo -> Prop) (a : AppInfo) :
  keeps apps Q (path_latest a).
Proof.
  unfold path_latest.
  repeat match goal with
         | |- keeps _ _ (if ?b then _ else _) => destruct b
         | |- keeps _ _ (bind _ _) => apply keeps_bind
         | |- keeps _ _ (run_command _ _ _ _) => apply keeps_run_command
         | |- keeps _ _ (fetch_json _) => apply keeps_fetch_json
         | |- keeps _ _ (lift_res _) => apply keeps_lift_res
         | |- keeps _ _ (ret _) => apply keeps_ret
         | |- forall _, _ => intro
         | |- keeps _ _ (match ?o with _ => _ end) => destruct o
         end.
Qed.

Lemma _check_path_updates_keeps (apps : list ref) :
  keeps apps newer_by_rule (_check_path_updates apps).
Proof.
  unfold _check_path_updates. apply keeps_for_acc. intros r updates Hin.
  unfold path_step. apply keeps_catch; [|apply keeps_ret].
  apply keeps_bind; [apply keeps_get_objects|]. intros h.
  apply keeps_bind.
  - apply path_latest_keeps.
  - intros latest. destruct (Text.nonempty latest); [|apply keeps_ret].
    apply keeps_on_objects. intros h'.
    now apply (@path_decide_touched apps r latest (h', updates)).
Qed.

End CheckerEffects.

(* ------------------------------------------------------------------ *)
(** ** [check_all_updates] *)
(* ------------------------------------------------------------------ *)

Lemma guarantee_of_guarantee (s : string) (a : AppInfo) :
  guarantee_of s a -> source a = s -> guarantee a.
Proof.
  unfold guarantee_of, guarantee.
  destruct (String.eqb_spec s "PATH") as [->|Hp].
  - intros Hq Hs Hua. split; intros; apply (Hq Hua).
  - destruct (String.eqb_spec s "Chocolatey") as [->|Hc]; simpl.
    + intros _ Hs Hua. split; intros; congruence.
    + destruct (String.eqb_spec s "PIP") as [->|Hi].
      * intros _ Hs Hua. split; intros; congruence.
      * intros Hq Hs Hua. split; intros; [congruence|apply (Hq Hua)].
Qed.

Section CheckAll.
Context {host : Host}.

Lemma check_source_keeps (s : string) (group : list ref) :
  keeps group (guarantee_of s) (check_source s group).
Proof.
  unfold check_source.
  repeat match goal with
         | |- keeps _ _ (if String.eqb s ?x then _ else _) =>
             destruct (String.eqb_spec s x) as [->|?]
         end;
    try apply keeps_ret.
  - apply _check_winget_updates_keeps.
  - apply _check_choco_updates_keeps.
  - apply _check_npm_updates_keeps.
  - apply _check_pnpm_updates_keeps.
  - apply npm_info_keeps.
  - apply npm_info_keeps.
  - apply _check_pip_updates_keeps.
  - apply _check_path_updates_keeps.
  - apply _check_registry_updates_keeps.
Qed.

Lemma check_groups_touched (apps : list ref) (h0 : heap) (names : list string) :
  forall (total : nat) (m : machine),
    touched apps guarantee h0 (objects m) ->
    touched apps guarantee h0
      (objects
         (snd (for_acc (map (fun s => (s, apps_of_source h0 apps s)) names) total
                 (fun group total_updates =>
                    match snd group with
                    | [] => ret total_updates
                    | source_apps =>
                        n <- check_source (fst group) source_apps ;;
                        ret (total_updates + n)
                    end) m))).
Proof.
  induction names as [|s names IH]; simpl; intros total m Hm; [exact Hm|].
  unfold bind at 1.
  match goal with
  | |- context [match ?c m with _ => _ end] =>
      assert (Hstep : touched apps guarantee h0 (objects (snd (c m))));
      [|destruct (c m) as [[total'|] m1]; simpl in *; [now apply IH|exact Hstep]]
  end.
  eapply touched_trans; [exact Hm|].
  assert (Hgroup : forall r, In r (apps_of_source h0 apps s) ->
                             In r apps /\ source (h0 r) = s).
  { intros r Hin. apply filter_In in Hin. destruct Hin as [Hin He].
    apply String.eqb_eq in He. auto. }
  destruct (apps_of_source h0 apps s) as [|r0 group] eqn:Hg;
    [apply touched_refl|].
  assert (Hk : keeps (r0 :: group) (guarantee_of s)
                 (n <- check_source s (r0 :: group) ;; ret (total + n))).
  { apply keeps_bind; [apply check_source_keeps|intros; apply keeps_ret]. }
  eapply touched_weaken; [|apply Hk].
  intros r Hin HQ. destruct (Hgroup r Hin) as [Ha Hs]. split; [assumption|].
  apply (@guarantee_of_guarantee s); [assumption|].
  destruct (Hk m r) as [(_ & Hs1 & _) _].
  destruct (Hm r) as [(_ & Hs0 & _) _].
  congruence.
Qed.

Lemma check_sources_keeps (apps : list ref) :
  keeps apps guarantee (check_sources apps).
Proof.
  intros m. unfold check_sources, bind at 1, get_objects.
  apply check_groups_touched, touched_refl.
Qed.


Lemma reconcile_same_key (a : AppInfo) : same_key a (reconcile a).
Proof.
  unfold reconcile.
  destruct (update_status a); try apply same_key_refl;
    destruct (_ || _); repeat split.
Qed.



End CheckAll.

(* ------------------------------------------------------------------ *)
(** ** The process invoker *)
(* ------------------------------------------------------------------ *)

Section InvokerFacts.
Context {host : Host}.

Lemma run_command_unfold (cmd argv : list string) (timeout : Z)
      (allow_failure include_stderr : bool) (m : machine)
      (r : proc_result) (w' : World) :
  resolve_executable (world m) cmd = Some argv ->
  spawn (world m) argv timeout = (r, w') ->
  run_command cmd timeout allow_failure include_stderr m =
  (command_output r allow_failure include_stderr,
   mkMachine w' (objects m) (commands m ++ [argv]) (console m)).
Proof. intros Hres Hsp. unfold run_command. now rewrite Hres, Hsp. Qed.

(** A returned text is never empty, and a command leaves the objects,
    and what was printed, as they were. *)
Lemma run_command_returns (cmd : list string) (timeout : Z)
      (allow_failure include_stderr : bool) (m m1 : machine) (out : string) :
  run_command cmd timeout allow_failure include_stderr m = (Val (Some out), m1) ->
  Text.nonempty out = true /\ objects m1 = objects m /\ console m1 = console m.
Proof.
  unfold run_command.
  destruct (resolve_executable _ _); [|discriminate].
  destruct (spawn _ _ _) as [r w']. intros H. inversion H; subst; clear H.
  split; [|split; reflexivity].
  unfold command_output, or_none in *.
  destruct r; try discriminate.
  destruct (_ && _); [discriminate|].
  destruct include_stderr;
    match goal with
    | H : Val (if Text.nonempty ?t then _ else _) = _ |- _ =>
        destruct (Text.nonempty t) eqn:Hn; inversion H; subst; exact Hn
    end.
Qed.

(** C5. For a command that was started: with a non-zero exit code the
    result is [None] unless [allow_failure] is set; with [allow_failure]
    set it is the captured output (stdout, or stdout, a line feed and
    stderr with [include_stderr]) stripped of surrounding white space,
    or [None] when nothing is left of it; an expired timeout and a
    missing executable both give [None], and neither raises. *)
Theorem C5_run_command_result
        (cmd argv : list string) (timeout : Z)
        (allow_failure include_stderr : bool) (m : machine)
        (r : proc_result) (w' : World) :
  resolve_executable (world m) cmd = Some argv ->
  spawn (world m) argv timeout = (r, w') ->
  let result := fst (run_command cmd timeout allow_failure include_stderr m) in
  (forall returncode stdout stderr,
      r = Completed returncode stdout stderr -> returncode <> 0%Z ->
      (allow_failure = false -> result = Val None)
      /\ (allow_failure = true ->
          let text :=
            Text.strip (if include_stderr
                        then (stdout ++ LF ++ stderr)%string else stdout) in
          result = Val (if Text.nonempty text then Some text else None)))
  /\ (r = TimeoutExpired -> result = Val None)
  /\ (r = FileNotFoundError -> result = Val None).
Proof.
  intros Hres Hsp result. subst result.
  rewrite (@run_command_unfold cmd argv timeout allow_failure include_stderr m r w' Hres Hsp).
  simpl.
  repeat split; try (intros ->; reflexivity).
  - intros ->. subst r. simpl.
    destruct (Z.eqb_spec returncode 0); [contradiction|reflexivity].
  - intros ->. subst r. simpl.
    destruct (Z.eqb_spec returncode 0); [contradiction|].
    simpl. destruct include_stderr; reflexivity.
Qed.

End InvokerFacts.

(* ------------------------------------------------------------------ *)
(** ** The PATH check, item by item *)
(* ------------------------------------------------------------------ *)

Section PathFacts.
Context {host : Host}.



End PathFacts.

(* ------------------------------------------------------------------ *)
(** ** The NPM check *)
(* ------------------------------------------------------------------ *)

(** The loop over the items for one entry of the listing: every item of
    that name is marked, and counted as often as the list holds it. *)
Lemma mark_named (n l : string) (apps : list ref) :
  forall st : heap * nat,
    let named := fun r => String.eqb (name (fst st r)) n in
    exists h',
      fold_until
        (fun st r =>
           if String.eqb (name (fst st r)) n
           then Next (count_update r l st) else Next st) apps st
      = Next (h', snd st + length (filter named apps))
      /\ forall r, h' r = if existsb (Nat.eqb r) apps && named r
                          then mark_update l (fst st r) else fst st r.
Proof.
  induction apps as [|x apps IH]; simpl; intros [h k].
  - exists h. simpl. rewrite Nat.add_0_r. auto.
  - simpl. destruct (String.eqb (name (h x)) n) eqn:Hx.
    + destruct (IH (count_update x l (h, k))) as (h' & Hrun & Hat).
      exists h'. simpl in *. split.
      * rewrite Hrun.
        match type of Hrun with
        | context [filter ?p apps] =>
            assert (Hf : filter p apps
                         = filter (fun r => String.eqb (name (h r)) n) apps)
        end.
        { apply filter_ext. intros r. unfold modify.
          destruct (Nat.eqb r x); reflexivity. }
        rewrite Hf. simpl. do 2 f_equal. lia.
      * intros r. rewrite Hat. unfold modify.
        destruct (Nat.eqb_spec r x) as [->|Hne]; simpl; [|reflexivity].
        rewrite Hx. destruct (existsb (Nat.eqb x) apps); reflexivity.
    + destruct (IH (h, k)) as (h' & Hrun & Hat).
      exists h'. simpl in *. split; [exact Hrun|].
      intros r. rewrite Hat.
      destruct (Nat.eqb_spec r x) as [->|Hne]; simpl; [|reflexivity].
      rewrite Hx. now rewrite andb_false_r.
Qed.

Section NpmFacts.
Context {host : Host}.

(** C7. The listing of [npm outdated] is the object
    [{"foo": {"latest": "2.0.0"}}] and the list holds one item named
    [foo], of version [1.0.0] and source NPM: the check returns 1, that
    item has [latest_version] [2.0.0] and is marked UpdateAvailable, and
    no other object changes. *)
Theorem C7_npm_outdated_scenario
        (apps : list ref) (m m1 : machine) (out : string) (r : ref) :
  run_command ["npm"; "outdated"; "-g"; "--json"] default_timeout true false m
  = (Val (Some out), m1) ->
  json_loads out = Some (JDict [("foo", JDict [("latest", JStr "2.0.0")])]) ->
  filter (fun r' => String.eqb (name (objects m r')) "foo") apps = [r] ->
  version (objects m r) = "1.0.0" ->
  source (objects m r) = "NPM" ->
  exists m',
    _check_npm_updates apps m = (Val 1, m')
    /\ latest_version (objects m' r) = "2.0.0"
    /\ update_status (objects m' r) = UPDATE_AVAILABLE
    /\ name (objects m' r) = "foo"
    /\ version (objects m' r) = "1.0.0"
    /\ source (objects m' r) = "NPM"
    /\ forall r', r' <> r -> objects m' r' = objects m r'.
Proof.
  intros Hcmd Hjson Hone Hver Hsrc.
  pose proof Hcmd as Hret. apply run_command_returns in Hret.
  destruct Hret as (Hne & Hobj & _).
  unfold _check_npm_updates, bind. rewrite Hcmd.
  destruct out as [|c out]; [discriminate Hne|].
  rewrite Hjson. unfold on_objects, npm_outdated, npm_entry. simpl.
  destruct (mark_named "foo" "2.0.0" apps (objects m1, 0)) as (h' & Hrun & Hat).
  simpl in Hrun, Hat.
  unfold assign_latest. simpl.
  rewrite Hrun. simpl. rewrite Hobj in *. rewrite Hone in *. simpl.
  eexists. split; [reflexivity|]. simpl.
  assert (Hin : In r (filter (fun r' => String.eqb (name (objects m r')) "foo") apps))
    by (rewrite Hone; now left).
  apply filter_In in Hin. destruct Hin as [Hin Hname].
  rewrite (Hat r), (proj2 (existsb_eqb_In r apps) Hin), Hname. simpl.
  apply String.eqb_eq in Hname.
  repeat split; try assumption.
  intros r' Hne'. rewrite Hat.
  destruct (existsb (Nat.eqb r') apps) eqn:He; [|reflexivity].
  destruct (String.eqb (name (objects m r')) "foo") eqn:Hn; [|reflexivity].
  exfalso. apply Hne'.
  assert (H : In r' (filter (fun r' => String.eqb (name (objects m r')) "foo") apps)).
  { apply filter_In. split; [now apply existsb_eqb_In|assumption]. }
  rewrite Hone in H. destruct H as [H|[]]. now symmetry.
Qed.

End NpmFacts.

(* ------------------------------------------------------------------ *)
(** ** The executor *)
(* ------------------------------------------------------------------ *)

Section ExecutorFacts.
Context {host : Host}.

Lemma dry_run_loop (apps : list ref) :
  forall (success_count : nat) (m : machine),
    for_acc apps success_count (execute_step true) m =
    (Val (success_count + length apps),
     mkMachine (world m) (objects m) (commands m)
               (console m ++ map (dry_run_line (objects m)) apps)).
Proof.
  induction apps as [|r apps IH]; simpl; intros k m.
  - rewrite Nat.add_0_r, app_nil_r. destruct m; reflexivity.
  - unfold bind at 1. unfold execute_step at 1.
    unfold bind, get_objects, print, ret. simpl.
    rewrite IH. simpl. rewrite <- app_assoc. simpl.
    now rewrite Nat.add_succ_r.
Qed.


End ExecutorFacts.

(* ------------------------------------------------------------------ *)
(** ** The cache *)
(* ------------------------------------------------------------------ *)

Lemma status_of_value_of (s : UpdateStatus) :
  status_of_value (status_value s) = Some s.
Proof. destruct s; vm_compute; reflexivity. Qed.

Section CacheFacts.
Context {host : Host}.

Hypothesis iso : iso_round_trip.

(** After [clear] the cache is not valid, and [load] finds nothing. *)
Lemma clear_not_valid (f : cache_file) (duration : timedelta) (now : datetime) :
  is_valid (clear f) duration now = false
  /\ load (clear f) duration now = None.
Proof. split; reflexivity. Qed.

Lemma from_item_to_dict (a : AppInfo) : from_item (to_dict a) = Some a.
Proof.
  unfold from_item, to_dict. simpl.
  rewrite status_of_value_of, iso.
  unfold optional_field, str_field. simpl.
  destruct a as [n s v l i st e p t]. simpl.
  destruct i, e, p; reflexivity.
Qed.

Lemma load_items (apps : list AppInfo) :
  traverse from_item (map to_dict apps) = Some apps.
Proof.
  induction apps as [|a apps IH]; [reflexivity|].
  cbn [map traverse]. now rewrite from_item_to_dict, IH.
Qed.

Lemma is_valid_saved (apps : list AppInfo) (saved_at now : datetime)
      (duration : timedelta) (f : cache_file) :
  is_valid (save apps saved_at Written f) duration now
  = (now - saved_at <? duration)%Z.
Proof. unfold is_valid, save. simpl. now rewrite iso. Qed.

(** C4. A snapshot that was written at [saved_at] and is loaded at
    [loaded_at]: while [loaded_at - saved_at] is below the duration the
    items come back as they were saved, so with the same name, source,
    version and status, in the same order; from the duration on, [load]
    returns [None]. *)
Theorem C4_cache_round_trip
        (apps : list AppInfo) (saved_at loaded_at : datetime)
        (duration : timedelta) (f : cache_file) :
  let snapshot := save apps saved_at Written f in
  ((loaded_at - saved_at < duration)%Z ->
   load snapshot duration loaded_at = Some apps
   /\ exists loaded,
       load snapshot duration loaded_at = Some loaded
       /\ map (fun a => (name a, source a, version a, update_status a)) loaded
          = map (fun a => (name a, source a, version a, update_status a)) apps)
  /\ ((duration <= loaded_at - saved_at)%Z ->
      load snapshot duration loaded_at = None).
Proof.
  intros snapshot. subst snapshot. unfold load.
  rewrite is_valid_saved. split.
  - intros Hlt. apply Z.ltb_lt in Hlt. rewrite Hlt. simpl.
    rewrite load_items. split; [reflexivity|].
    exists apps. split; reflexivity.
  - intros Hge. apply Z.ltb_ge in Hge. now rewrite Hge.
Qed.

End CacheFacts.

(* ------------------------------------------------------------------ *)
(** ** The statements on concrete inputs *)
(* ------------------------------------------------------------------ *)

Lemma pair_of_fst {A B} (p : A * B) (a : A) : fst p = a -> p = (a, snd p).
Proof. destruct p. simpl. now intros ->. Qed.

Lemma scripted_iso_round_trip windows run fetch loads search :
  @iso_round_trip (scripted_host windows run fetch loads search).
Proof.
  intros t. simpl. rewrite NilEmpty.isi. simpl. now rewrite DecimalZ.of_to.
Qed.



(** A PATH tool for which no candidate was found stays Unknown. *)
Lemma C3_witness :
  let h := store_objects [scanned "git" "PATH" "2.44.0" None]
                         (fun _ => scanned "" "" "" None) in
  In 0 [0]
  /\ In (source (h 0)) known_sources
  /\ reconcile_all [0] h 0 = set_update_status UNKNOWN (h 0).
Proof.
  intros h.
  assert (Hin : In 0 [0]) by (now left).
  assert (Hs : In (source (h 0)) known_sources) by (vm_compute; tauto).
  split; [exact Hin|split; [exact Hs|]].
  destruct (@C3_reconciliation_policy [0] h 0 Hin Hs) as (_ & _ & H & _).
  apply H; vm_compute; congruence.
Defined.

(** Two items, saved at 100 and loaded at 200, then two hours later. *)
Lemma C4_witness :
  let apps := [scanned "foo" "NPM" "1.0.0" (Some "foo");
               mkAppInfo "git" "PATH" "2.44.0" "2.45.1" None UPDATE_AVAILABLE
                         None (Some "/usr/bin/git") 5%Z] in
  let host := command_host (fun _ => FileNotFoundError) in
  let snapshot := @save host apps 100%Z Written NoFile in
  (200 - 100 < hours 2)%Z
  /\ @load host snapshot (hours 2) 200%Z = Some apps
  /\ (hours 2 <= 7200000100 - 100)%Z
  /\ @load host snapshot (hours 2) 7200000100%Z = None.
Proof.
  intros apps host snapshot.
  assert (H1 : (200 - 100 < hours 2)%Z) by (vm_compute; reflexivity).
  assert (H2 : (hours 2 <= 7200000100 - 100)%Z) by (vm_compute; discriminate).
  destruct (@C4_cache_round_trip host (scripted_iso_round_trip _ _ _ _ _)
              apps 100%Z 200%Z (hours 2) NoFile) as [Hload _].
  destruct (@C4_cache_round_trip host (scripted_iso_round_trip _ _ _ _ _)
              apps 100%Z 7200000100%Z (hours 2) NoFile) as [_ Hnone].
  split; [exact H1|].
  split; [apply (Hload H1)|].
  split; [exact H2|apply (Hnone H2)].
Defined.

(** Exit code 1 with [allow_failure]: the captured [ok] and a line feed
    come back as [ok], and a captured blank comes back as [None]. *)
Lemma C5_counterexample :
  let stdout := ("ok" ++ LF)%string in
  let host := exit_host 1 stdout "" in
  let blank := exit_host 1 " " "" in
  @spawn host tt ["tool"] default_timeout = (Completed 1 stdout "", tt)
  /\ stdout <> ""
  /\ fst (@run_command host ["tool"] default_timeout true false
            (@machine_of host tt [])) = Val (Some "ok")
  /\ fst (@run_command host ["tool"] default_timeout true false
            (@machine_of host tt [])) <> Val (Some stdout)
  /\ " " <> ""
  /\ fst (@run_command blank ["tool"] default_timeout true false
            (@machine_of blank tt [])) = Val None.
Proof.
  vm_compute. repeat split; try reflexivity; discriminate.
Qed.

(** Exit code 1, stdout [ok] and a line feed, stderr [warning], under
    the three settings of the flags. *)
Lemma C5_witness :
  let stdout := ("ok" ++ LF)%string in
  let host := exit_host 1 stdout "warning" in
  let m := @machine_of host tt [] in
  @resolve_executable host (world m) ["tool"] = Some ["tool"]
  /\ @spawn host (world m) ["tool"] default_timeout
     = (Completed 1 stdout "warning", tt)
  /\ fst (@run_command host ["tool"] default_timeout false false m) = Val None
  /\ fst (@run_command host ["tool"] default_timeout true false m)
     = Val (Some "ok")
  /\ fst (@run_command host ["tool"] default_timeout true true m)
     = Val (Some ("ok" ++ LF ++ LF ++ "warning")%string).
Proof.
  intros stdout host m.
  assert (Hres : @resolve_executable host (world m) ["tool"] = Some ["tool"])
    by reflexivity.
  assert (Hsp : @spawn host (world m) ["tool"] default_timeout
                = (Completed 1 stdout "warning", tt)) by reflexivity.
  assert (Hrc : 1%Z <> 0%Z) by discriminate.
  split; [exact Hres|split; [exact Hsp|]].
  destruct (@C5_run_command_result host ["tool"] ["tool"] default_timeout
              false false m _ _ Hres Hsp) as [Hff _].
  destruct (@C5_run_command_result host ["tool"] ["tool"] default_timeout
              true false m _ _ Hres Hsp) as [Htf _].
  destruct (@C5_run_command_result host ["tool"] ["tool"] default_timeout
              true true m _ _ Hres Hsp) as [Htt _].
  split; [exact (proj1 (Hff 1%Z stdout "warning" eq_refl Hrc) eq_refl)|].
  split; [exact (proj2 (Htf 1%Z stdout "warning" eq_refl Hrc) eq_refl)|].
  exact (proj2 (Htt 1%Z stdout "warning" eq_refl Hrc) eq_refl).
Defined.


(** The scenario, with a second NPM item in the list. *)
Lemma C7_witness :
  let apps := [scanned "bar" "NPM" "3.1.0" (Some "bar");
               scanned "foo" "NPM" "1.0.0" (Some "foo")] in
  let m := @machine_of npm_outdated_host tt apps in
  let outcome := @_check_npm_updates npm_outdated_host [0; 1] m in
  filter (fun r' => String.eqb (name (objects m r')) "foo") [0; 1] = [1]
  /\ version (objects m 1) = "1.0.0"
  /\ source (objects m 1) = "NPM"
  /\ exists m',
      outcome = (Val 1, m')
      /\ latest_version (objects m' 1) = "2.0.0"
      /\ update_status (objects m' 1) = UPDATE_AVAILABLE.
Proof.
  intros apps m outcome.
  assert (Hcmd : @run_command npm_outdated_host
                   ["npm"; "outdated"; "-g"; "--json"] default_timeout true false m
                 = (Val (Some foo_listing),
                    snd (@run_command npm_outdated_host
                           ["npm"; "outdated"; "-g"; "--json"]
                           default_timeout true false m)))
    by (apply pair_of_fst; vm_compute; reflexivity).
  assert (Hjson : @json_loads npm_outdated_host foo_listing = Some foo_document)
    by (vm_compute; reflexivity).
  assert (Hone : filter (fun r' => String.eqb (name (objects m r')) "foo") [0; 1]
                 = [1]) by reflexivity.
  assert (Hver : version (objects m 1) = "1.0.0") by reflexivity.
  assert (Hsrc : source (objects m 1) = "NPM") by reflexivity.
  split; [exact Hone|split; [exact Hver|split; [exact Hsrc|]]].
  destruct (@C7_npm_outdated_scenario npm_outdated_host [0; 1] m _ foo_listing 1
              Hcmd Hjson Hone Hver Hsrc) as (m' & Hrun & Hl & Hs & _).
  exists m'. repeat split; assumption.
Defined.


(* ================================================================== *)
(** * Further properties of the code *)
(* ================================================================== *)

(* ------------------------------------------------------------------ *)
(** ** More on the merge step *)
(* ------------------------------------------------------------------ *)

Lemma dedup_fold_keys_cover (apps : list AppInfo) (a : AppInfo) :
  In a apps ->
  exists b, In b (run_dedup apps) /\ dedup_key b = dedup_key a.
Proof.
  intros Hin. unfold run_dedup.
  change (fun d a => dict_set (dedup_key a) a d) with dedup_step.
  destruct (dedup_fold_invariant apps (d:=[])) as (H1 & H2 & _);
    [constructor|constructor|].
  pose proof (dedup_fold_get apps [] (dedup_key a)) as Hget.
  destruct (List.find _ (rev apps)) as [b|] eqn:Hfind.
  - apply find_some in Hfind. destruct Hfind as [_ Hk].
    apply String.eqb_eq in Hk. exists b. split; [|exact Hk].
    apply (keyed_values_get b H2 H1). now rewrite Hk.
  - exfalso. apply in_rev in Hin.
    pose proof (find_none _ _ Hfind a Hin) as Hf.
    simpl in Hf. now rewrite String.eqb_refl in Hf.
Qed.

(** The merged list of [run]: no key [name|version] twice, nothing that
    was not scanned, every scanned key still there, and in the order of
    [(source, name)]. *)
Theorem run_merge_keeps_every_key_once (all_apps : list AppInfo) :
  NoDup (map dedup_key (run_merge all_apps))
  /\ (forall x, In x (run_merge all_apps) -> In x all_apps)
  /\ (forall a, In a all_apps ->
        exists b, In b (run_merge all_apps) /\ dedup_key b = dedup_key a)
  /\ Sorted (fun a b => source_name_le a b = true) (run_merge all_apps).
Proof.
  unfold run_merge, run_sort. repeat split.
  - eapply Permutation_NoDup; [|apply run_dedup_NoDup].
    apply Permutation_map, sorted_perm.
  - intros x Hx. apply run_dedup_incl.
    eapply Permutation_in; [symmetry; apply sorted_perm|exact Hx].
  - intros a Hin. destruct (dedup_fold_keys_cover _ _ Hin) as (b & Hb & Hk).
    exists b. split; [|exact Hk].
    eapply Permutation_in; [apply sorted_perm|exact Hb].
  - apply sorted_Sorted, source_name_le_total.
Qed.

(** An item is in the merged list exactly when it is the last item of
    the scan with its key. *)
Theorem run_merge_keeps_last (all_apps : list AppInfo) (x : AppInfo) :
  In x (run_merge all_apps) <->
  List.find (fun a => String.eqb (dedup_key a) (dedup_key x)) (rev all_apps)
  = Some x.
Proof.
  rewrite <- run_dedup_keeps_last. unfold run_merge, run_sort. split; intros H.
  - eapply Permutation_in; [symmetry; apply sorted_perm|exact H].
  - eapply Permutation_in; [apply sorted_perm|exact H].
Qed.

Lemma first_step_invariant (apps : list AppInfo) (d : dict AppInfo) :
  NoDup (dict_keys d) -> keyed d ->
  NoDup (dict_keys (fold_left first_step apps d))
  /\ keyed (fold_left first_step apps d).
Proof.
  revert d. induction apps as [|a apps IH]; simpl; intros d Hnd Hk; [auto|].
  apply IH; unfold first_step; destruct (dict_get _ d); auto.
  - now apply dict_set_NoDup.
  - now apply dict_set_keyed.
Qed.

Lemma first_step_get (apps : list AppInfo) :
  forall (d : dict AppInfo) (k : string),
    dict_get k (fold_left first_step apps d) =
    match dict_get k d with
    | Some v => Some v
    | None => List.find (fun a => String.eqb (dedup_key a) k) apps
    end.
Proof.
  induction apps as [|a apps IH]; simpl; intros d k.
  - destruct (dict_get k d); reflexivity.
  - rewrite IH. unfold first_step.
    destruct (dict_get (dedup_key a) d) eqn:Ha.
    + destruct (dict_get k d) eqn:Hk; [reflexivity|].
      destruct (String.eqb_spec (dedup_key a) k) as [He|Hne]; [|reflexivity].
      congruence.
    + rewrite dict_get_set.
      destruct (String.eqb_spec (dedup_key a) k) as [He|Hne].
      * subst k. now rewrite Ha.
      * reflexivity.
Qed.

(** The list [scan_registry] returns, from the items it read: an item is
    returned exactly when it is the first with its key [name|version];
    no key is returned twice; the list is in the order of the names. *)
Theorem scan_registry_keeps_first (apps : list AppInfo) (x : AppInfo) :
  (In x (scan_registry_unique apps) <->
   List.find (fun a => String.eqb (dedup_key a) (dedup_key x)) apps = Some x)
  /\ NoDup (map dedup_key (scan_registry_unique apps))
  /\ Sorted (fun a b => String.leb (name a) (name b) = true)
            (scan_registry_unique apps).
Proof.
  unfold scan_registry_unique.
  change (fun d a => match dict_get (dedup_key a) d with
                     | None => dict_set (dedup_key a) a d
                     | Some _ => d
                     end) with first_step.
  destruct (first_step_invariant apps (d:=[])) as (H1 & H2);
    [constructor|constructor|].
  repeat split.
  - intros H.
    assert (Hin : In x (dict_values (fold_left first_step apps [])))
      by (eapply Permutation_in; [symmetry; apply sorted_perm|exact H]).
    apply (keyed_values_get x H2 H1) in Hin.
    now rewrite first_step_get in Hin.
  - intros H. eapply Permutation_in; [apply sorted_perm|].
    apply (keyed_values_get x H2 H1). now rewrite first_step_get.
  - eapply Permutation_NoDup; [apply Permutation_map, sorted_perm|].
    now rewrite keyed_keys.
  - apply sorted_Sorted. intros a b. apply String.leb_total.
Qed.

Lemma dict_set_fresh {V} (k : string) (v : V) (d : dict V) :
  ~ In k (dict_keys d) -> dict_set k v d = d ++ [(k, v)].
Proof.
  induction d as [|[k' v'] d IH]; simpl; intros Hn; [reflexivity|].
  destruct (String.eqb_spec k' k) as [->|Hne]; [exfalso; auto|].
  rewrite IH; auto.
Qed.

Lemma dedup_fold_fresh (apps : list AppInfo) :
  forall d : dict AppInfo,
    NoDup (dict_keys d ++ map dedup_key apps) ->
    fold_left dedup_step apps d = d ++ map (fun a => (dedup_key a, a)) apps.
Proof.
  induction apps as [|a apps IH]; simpl; intros d Hnd.
  - now rewrite app_nil_r.
  - unfold dedup_step at 2. rewrite dict_set_fresh.
    + rewrite IH.
      * now rewrite <- app_assoc.
      * unfold dict_keys in *. rewrite map_app, <- app_assoc. exact Hnd.
    + apply NoDup_remove_2 in Hnd. intros Hin. apply Hnd.
      apply in_or_app. now left.
Qed.

Lemma run_dedup_distinct (apps : list AppInfo) :
  NoDup (map dedup_key apps) -> run_dedup apps = apps.
Proof.
  intros Hnd. unfold run_dedup.
  change (fun d a => dict_set (dedup_key a) a d) with dedup_step.
  rewrite dedup_fold_fresh by exact Hnd.
  unfold dict_values. simpl. rewrite map_map. simpl. apply map_id.
Qed.

Lemma sorted_of_Sorted {A} (le : A -> A -> bool) (l : list A) :
  Sorted (fun a b => le a b = true) l -> sorted le l = l.
Proof.
  induction 1 as [|x l Hs IH Hhd]; simpl; [reflexivity|].
  rewrite IH. destruct Hhd as [|y l' Hxy]; simpl; [reflexivity|].
  now rewrite Hxy.
Qed.

(** Merging a merged list changes nothing. *)
Theorem run_merge_idempotent (all_apps : list AppInfo) :
  run_merge (run_merge all_apps) = run_merge all_apps.
Proof.
  destruct (run_merge_unique_sorted all_apps) as (Hnd & _ & Hs).
  unfold run_merge at 1. rewrite run_dedup_distinct by exact Hnd.
  unfold run_sort. now apply sorted_of_Sorted.
Qed.

(* ------------------------------------------------------------------ *)
(** ** More on the version comparison *)
(* ------------------------------------------------------------------ *)

Lemma lstrip_head (s : string) :
  match Text.lstrip s with
  | EmptyString => True
  | String c _ => Text.is_space c = false
  end.
Proof.
  induction s as [|c s IH]; simpl; [exact I|].
  destruct (Text.is_space c) eqn:Hc; [exact IH|].
  simpl. exact Hc.
Qed.

Lemma rstrip_keeps_head (c : ascii) (s : string) :
  Text.is_space c = false ->
  exists t, Text.rstrip (String c s) = String c t.
Proof.
  intros Hc. simpl. destruct (Text.rstrip s).
  - rewrite Hc. now exists "".
  - eexists. reflexivity.
Qed.

Lemma strip_idempotent (s : string) : Text.strip (Text.strip s) = Text.strip s.
Proof.
  unfold Text.strip. pose proof (lstrip_head s) as Hh.
  destruct (Text.lstrip s) as [|c t] eqn:Hl; [reflexivity|].
  destruct (@rstrip_keeps_head c t Hh) as (u & Hu).
  rewrite Hu. simpl Text.lstrip. rewrite Hh. rewrite <- Hu.
  apply rstrip_idempotent.
Qed.

(** The cleaned form of a version text is empty or starts with a digit,
    has no white space around it, and is its own cleaned form; and no
    version is newer than itself. *)
Theorem clean_is_normal (v : string) :
  match clean v with
  | EmptyString => True
  | String c _ => Text.is_digit c = true
  end
  /\ Text.strip (clean v) = clean v
  /\ clean (clean v) = clean v
  /\ is_newer v v = false.
Proof.
  repeat split.
  - apply clean_head.
  - unfold clean. apply strip_idempotent.
  - apply clean_idempotent.
  - unfold is_newer. now rewrite String.eqb_refl.
Qed.

(* ------------------------------------------------------------------ *)
(** ** More on the process invoker *)
(* ------------------------------------------------------------------ *)

Section InvokerMore.
Context {host : Host}.

Lemma or_none_some (text out : string) :
  or_none text = Some out -> out = text /\ Text.nonempty out = true.
Proof.
  unfold or_none. destruct (Text.nonempty text) eqn:Hn; [|discriminate].
  intros H. inversion H; subst. auto.
Qed.

Lemma command_output_some (r : proc_result) (a i : bool) (out : string) :
  command_output r a i = Val (Some out) ->
  out <> "" /\ Text.strip out = out.
Proof.
  unfold command_output. destruct r; try discriminate.
  destruct (_ && _); [discriminate|].
  destruct i; intros H; inversion H as [Ho];
    apply or_none_some in Ho; destruct Ho as [-> Hn];
    (split; [now apply nonempty_neq|apply strip_idempotent]).
Qed.

Lemma run_command_state
      (cmd : list string) (timeout : Z) (allow_failure include_stderr : bool)
      (m : machine) :
  let m' := snd (run_command cmd timeout allow_failure include_stderr m) in
  objects m' = objects m
  /\ console m' = console m
  /\ (commands m' = commands m \/ exists argv, commands m' = commands m ++ [argv]).
Proof.
  unfold run_command.
  destruct (resolve_executable (world m) cmd) as [argv|]; simpl.
  - destruct (spawn (world m) argv timeout) as [r w']. simpl.
    repeat split. right. now exists argv.
  - repeat split. now left.
Qed.

(** However a call of [run_command] ends, it has handed at most one
    argument vector to [subprocess.run], and the objects and the console
    are what they were.  A text it returns is not empty and has no white
    space at either end. *)
Theorem run_command_effects
        (cmd : list string) (timeout : Z) (allow_failure include_stderr : bool)
        (m m' : machine) (outcome : res (option string)) :
  run_command cmd timeout allow_failure include_stderr m = (outcome, m') ->
  objects m' = objects m
  /\ console m' = console m
  /\ (commands m' = commands m \/ exists argv, commands m' = commands m ++ [argv])
  /\ forall out, outcome = Val (Some out) ->
                 out <> "" /\ Text.strip out = out
                 /\ exists argv, commands m' = commands m ++ [argv].
Proof.
  unfold run_command.
  destruct (resolve_executable (world m) cmd) as [argv|].
  - destruct (spawn (world m) argv timeout) as [r w'].
    intros H. inversion H; subst; clear H. simpl.
    split; [reflexivity|]. split; [reflexivity|].
    split; [right; now exists argv|].
    intros out Hout. apply command_output_some in Hout.
    destruct Hout as [H1 H2]. repeat split; try assumption. now exists argv.
  - intros H. inversion H; subst; clear H.
    split; [reflexivity|]. split; [reflexivity|]. split; [now left|].
    discriminate.
Qed.

End InvokerMore.

(* ------------------------------------------------------------------ *)
(** ** More on the checks *)
(* ------------------------------------------------------------------ *)

Lemma fold_left_keeps_at (P : AppInfo -> Prop)
      (step : heap * nat -> ref -> heap * nat) (l : list ref) :
  (forall st r r', P (fst st r') -> P (fst (step st r) r')) ->
  forall st r', P (fst st r') -> P (fst (fold_left step l st) r').
Proof.
  intros Hkeep. induction l as [|x l IH]; simpl; intros st r' H; [exact H|].
  apply IH, Hkeep, H.
Qed.

Lemma fold_left_all (P : AppInfo -> Prop)
      (step : heap * nat -> ref -> heap * nat) (l : list ref) :
  (forall st r, P (fst (step st r) r)) ->
  (forall st r r', P (fst st r') -> P (fst (step st r) r')) ->
  forall st r, In r l -> P (fst (fold_left step l st) r).
Proof.
  intros Hset Hkeep. induction l as [|x l IH]; simpl; intros st r Hin.
  - destruct Hin.
  - destruct Hin as [->|Hin]; [|now apply IH].
    apply fold_left_keeps_at; [exact Hkeep|apply Hset].
Qed.

Lemma fold_left_count {X} (step : heap * nat -> X -> heap * nat) (l : list X) :
  (forall st x, snd st <= snd (step st x) <= S (snd st)) ->
  forall st, snd st <= snd (fold_left step l st) <= snd st + length l.
Proof.
  intros Hstep. induction l as [|x l IH]; simpl; intros st; [lia|].
  specialize (IH (step st x)). specialize (Hstep st x). lia.
Qed.

Lemma decided_mark_update (latest : string) (a : AppInfo) :
  latest <> "" -> decided (mark_update latest a).
Proof. intros H. left. split; [reflexivity|exact H]. Qed.

Lemma decided_up_to_date (a : AppInfo) :
  decided (set_update_status UP_TO_DATE a).
Proof. now right. Qed.

Lemma registry_upgrades_decides (apps : list ref) (output : string) (h : heap) :
  (forall r, In r apps -> decided (fst (registry_upgrades apps output h) r))
  /\ snd (registry_upgrades apps output h) <= length apps.
Proof.
  unfold registry_upgrades.
  destruct (first_index _ _) as [i|]; simpl.
  - match goal with
    | |- context [fold_left ?f apps (h, 0)] => set (step := f)
    end.
    split.
    + intros r Hin. apply (@fold_left_all decided step apps); try assumption.
      * intros st x. unfold step.
        destruct (dict_get _ _) as [[|c latest]|]; simpl;
          rewrite modify_same;
          try apply decided_up_to_date.
        now apply decided_mark_update.
      * intros st x r' H. unfold step.
        destruct (Nat.eq_dec r' x) as [->|Hne].
        -- destruct (dict_get _ _) as [[|c latest]|]; simpl;
             rewrite modify_same;
             try apply decided_up_to_date.
           now apply decided_mark_update.
        -- destruct (dict_get _ _) as [[|c latest]|]; simpl;
             now rewrite modify_other.
    + pose proof (@fold_left_count ref step apps) as Hc.
      assert (Hs : forall st x, snd st <= snd (step st x) <= S (snd st)).
      { intros [h0 k] x. unfold step.
        destruct (dict_get _ _) as [[|c latest]|]; unfold count_update;
          simpl; split; auto. }
      destruct (Hc Hs (h, 0)) as [_ Hle]. exact Hle.
  - split; [|lia]. intros r Hin. unfold mark_all_up_to_date.
    rewrite modify_each by reflexivity.
    rewrite (proj2 (existsb_eqb_In r apps) Hin).
    apply decided_up_to_date.
Qed.

Section ChecksMore.
Context {host : Host}.

(** [check_all_updates], however it ends, leaves every object its name,
    source and version, and leaves the objects outside its list as they
    were. *)
Theorem check_all_updates_frame
        (apps : list ref) (m m' : machine) (outcome : res nat) :
  check_all_updates apps m = (outcome, m') ->
  forall r, same_key (objects m r) (objects m' r)
            /\ (~ In r apps -> objects m' r = objects m r).
Proof.
  intros Hrun r.
  unfold check_all_updates, bind in Hrun.
  pose proof (check_sources_keeps apps m r) as [Hkey Hch].
  destruct (check_sources apps m) as [[total|] m1]; simpl in *.
  - unfold on_objects in Hrun. simpl in Hrun.
    inversion Hrun; subst; clear Hrun. simpl.
    rewrite reconcile_all_at.
    destruct (existsb (Nat.eqb r) apps) eqn:He.
    + apply existsb_eqb_In in He. split; [|contradiction].
      eapply same_key_trans; [exact Hkey|apply reconcile_same_key].
    + split; [exact Hkey|]. intros _.
      destruct Hch as [Heq|[Hin _]]; [exact Heq|].
      apply existsb_eqb_In in Hin. congruence.
  - inversion Hrun; subst; clear Hrun. split; [exact Hkey|].
    intros Hn. destruct Hch as [Heq|[Hin _]]; [exact Heq|contradiction].
Qed.

(** The registry check leaves no item of its list undecided: when it
    returns, each is UpdateAvailable with a candidate version or
    UpToDate, and the count is at most the length of the list. *)
Theorem registry_check_decides
        (apps : list ref) (m m' : machine) (updates : nat) :
  _check_registry_updates apps m = (Val updates, m') ->
  (forall r, In r apps -> decided (objects m' r))
  /\ updates <= length apps.
Proof.
  unfold _check_registry_updates, bind.
  destruct (run_command _ _ _ _ m) as [[output|] m1] eqn:Hcmd; [|discriminate].
  unfold on_objects.
  destruct output as [[|c text]|]; simpl; intros H; inversion H; subst; clear H;
    simpl.
  - split; [|lia]. intros r Hin. unfold mark_all_up_to_date.
    rewrite modify_each by reflexivity.
    rewrite (proj2 (existsb_eqb_In r apps) Hin). apply decided_up_to_date.
  - destruct (registry_upgrades apps (String c text) (objects m1)) eqn:Hr.
    inversion H1; subst; clear H1. simpl.
    pose proof (registry_upgrades_decides apps (String c text) (objects m1)) as Hd.
    rewrite Hr in Hd. exact Hd.
  - split; [|lia]. intros r Hin. unfold mark_all_up_to_date.
    rewrite modify_each by reflexivity.
    rewrite (proj2 (existsb_eqb_In r apps) Hin). apply decided_up_to_date.
Qed.

Lemma path_step_total (r : ref) (updates : nat) (m : machine) :
  exists k m', path_step r updates m = (Val k, m')
               /\ updates <= k <= S updates.
Proof.
  unfold path_step, catch, bind, get_objects.
  destruct (path_latest (objects m r) m) as [[latest|] m1].
  - destruct (Text.nonempty latest).
    + unfold on_objects.
      destruct (path_decide_at r latest (objects m1, updates)) as (_ & Hc & _).
      destruct (path_decide r latest (objects m1, updates)) as [h' k].
      simpl in Hc. eexists _, _. split; [reflexivity|].
      destruct (is_newer _ _); subst; lia.
    + eexists _, _. split; [reflexivity|lia].
  - eexists _, _. split; [reflexivity|lia].
Qed.

(** The PATH check never raises, whatever the commands and requests it
    makes end with; it counts at most one update per item. *)
Theorem path_check_never_raises (apps : list ref) (m : machine) :
  exists updates m',
    _check_path_updates apps m = (Val updates, m')
    /\ updates <= length apps.
Proof.
  unfold _check_path_updates.
  assert (H : forall l u m0, exists k m',
               for_acc l u path_step m0 = (Val k, m')
               /\ u <= k <= u + length l).
  { induction l as [|r l IH]; simpl; intros u m0.
    - eexists _, _. split; [reflexivity|lia].
    - unfold bind.
      destruct (path_step_total r u m0) as (k & m1 & Hs & Hk).
      rewrite Hs.
      destruct (IH k m1) as (k' & m2 & Hl & Hk').
      exists k', m2. split; [exact Hl|lia]. }
  destruct (H apps 0 m) as (k & m' & Hrun & Hk).
  exists k, m'. split; [exact Hrun|lia].
Qed.

(** A listing that is not JSON: the NPM, PNPM and PIP checks return 0
    and assign to no object. *)
Theorem unparsable_listing_gives_no_update
        (apps : list ref) (m m1 : machine) (out : string) :
  json_loads out = None ->
  (run_command ["npm"; "outdated"; "-g"; "--json"] default_timeout true false m
   = (Val (Some out), m1) ->
   _check_npm_updates apps m = (Val 0, m1) /\ objects m1 = objects m)
  /\ (run_command ["pnpm"; "outdated"; "-g"; "--json"] default_timeout true false m
      = (Val (Some out), m1) ->
      _check_pnpm_updates apps m = (Val 0, m1) /\ objects m1 = objects m)
  /\ (run_command
        [sys_executable; "-m"; "pip"; "list"; "--outdated"; "--format=json"]
        default_timeout true false m
      = (Val (Some out), m1) ->
      _check_pip_updates apps m = (Val 0, m1) /\ objects m1 = objects m).
Proof.
  intros Hjson.
  repeat split;
    try (pose proof H as Hr; apply run_command_returns in Hr; tauto);
    [unfold _check_npm_updates|unfold _check_pnpm_updates
     |unfold _check_pip_updates];
    unfold bind; rewrite H;
    pose proof H as Hr; apply run_command_returns in Hr;
    destruct Hr as (Hne & _);
    (destruct out; [discriminate Hne|]); now rewrite Hjson.
Qed.

End ChecksMore.

(** Reconciling twice is reconciling once, and reconciling changes
    nothing but the status. *)
Theorem reconcile_all_idempotent (apps : list ref) (h : heap) (r : ref) :
  reconcile_all apps (reconcile_all apps h) r = reconcile_all apps h r
  /\ reconcile_all apps h r
     = set_update_status (update_status (reconcile_all apps h r)) (h r).
Proof.
  rewrite !reconcile_all_at.
  destruct (existsb (Nat.eqb r) apps); split;
    try apply reconcile_idempotent.
  - unfold reconcile. destruct (h r) as [n s v l i st e p t]. simpl.
    destruct st; try reflexivity; destruct (_ || _); reflexivity.
  - reflexivity.
  - now destruct (h r).
Qed.

(* ------------------------------------------------------------------ *)
(** ** More on the executor *)
(* ------------------------------------------------------------------ *)

Section ExecutorMore.
Context {host : Host}.


Lemma single_update_state (a : AppInfo) (m : machine) :
  let m' := snd (_execute_single_update a m) in
  objects m' = objects m
  /\ console m' = console m
  /\ length (commands m') <= S (length (commands m)).
Proof.
  unfold _execute_single_update, raise, ret.
  destruct (upgrade_command a) as [[|w cmd]|];
    try (simpl; repeat split; lia).
  destruct (all_some (w :: cmd)) as [argv|]; [|simpl; repeat split; lia].
  unfold bind.
  pose proof (run_command_state argv default_timeout false false m)
    as (Ho & Hc & Hk).
  destruct (run_command argv default_timeout false false m) as [[out|] m1];
    simpl in *.
  - assert (Hlen : length (commands m1) <= S (length (commands m))).
    { destruct Hk as [->|[x ->]]; [lia|]. rewrite length_app. simpl. lia. }
    destruct out as [[|c s]|]; simpl; repeat split; assumption.
  - repeat split; try assumption.
    destruct Hk as [->|[x ->]]; [lia|]. rewrite length_app. simpl. lia.
Qed.


Lemma real_run_loop (apps : list ref) :
  forall (k k' : nat) (m m' : machine),
    for_acc apps k (execute_step false) m = (Val k', m') ->
    objects m' = objects m
    /\ length (commands m') <= length (commands m) + length apps
    /\ exists lines,
        console m' = console m ++ lines
        /\ Forall2 (line_of (objects m)) apps lines
        /\ k' = k + length (filter is_updated lines).
Proof.
  induction apps as [|r apps IH]; simpl; intros k k' m m' Hrun.
  - inversion Hrun; subst. repeat split; [lia|].
    exists []. rewrite app_nil_r. repeat split; [constructor|simpl; lia].
  - unfold bind at 1 in Hrun. unfold execute_step at 1 in Hrun.
    unfold bind at 1, get_objects in Hrun.
    unfold bind at 1 in Hrun.
    pose proof (single_update_state (objects m r) m) as (Ho & Hc & Hk).
    destruct (_execute_single_update (objects m r) m) as [[success|] m1];
      simpl in *; [|discriminate].
    destruct success; unfold bind, print, ret in Hrun; simpl in Hrun.
    + apply IH in Hrun. simpl in Hrun.
      destruct Hrun as (Ho' & Hk' & lines & Hcon & Hall & Hcount).
      rewrite Ho in *. rewrite Hc in *.
      split; [exact Ho'|]. split; [lia|].
      exists (UpdatedLine (name (objects m r)) (latest_version (objects m r))
                :: lines).
      split; [rewrite Hcon, <- app_assoc; reflexivity|].
      split; [constructor; [now left|exact Hall]|].
      simpl. lia.
    + apply IH in Hrun. simpl in Hrun.
      destruct Hrun as (Ho' & Hk' & lines & Hcon & Hall & Hcount).
      rewrite Ho in *. rewrite Hc in *.
      split; [exact Ho'|]. split; [lia|].
      exists (FailedLine (name (objects m r)) :: lines).
      split; [rewrite Hcon, <- app_assoc; reflexivity|].
      split; [constructor; [now right|exact Hall]|].
      simpl. lia.
Qed.

(** A real run that returns has printed one line per item, in the
    order of the list, saying updated or failed, and a closing line that
    counts the updated ones; a failure does not end the run.  It has
    started at most one command per item and assigned to no object. *)
Theorem real_run_reports_each_item (apps : list ref) (m m' : machine) :
  execute_updates apps false m = (Val tt, m') ->
  objects m' = objects m
  /\ length (commands m') <= length (commands m) + length apps
  /\ exists lines,
      console m' =
      console m ++ lines
        ++ [CompletedLine (length (filter is_updated lines)) (length apps)]
      /\ Forall2 (line_of (objects m)) apps lines.
Proof.
  unfold execute_updates, bind.
  destruct (for_acc apps 0 (execute_step false) m) as [[k|] m1] eqn:Hloop;
    [|discriminate].
  apply real_run_loop in Hloop.
  destruct Hloop as (Ho & Hk & lines & Hcon & Hall & Hcount).
  unfold print. intros H. inversion H; subst; clear H. simpl.
  split; [exact Ho|]. split; [exact Hk|].
  exists lines. split; [|exact Hall].
  now rewrite Hcon, <- app_assoc.
Qed.

End ExecutorMore.

(* ------------------------------------------------------------------ *)
(** ** More on the cache *)
(* ------------------------------------------------------------------ *)




Section CacheMore.
Context {host : Host}.


End CacheMore.

(* ------------------------------------------------------------------ *)
(** ** The scanners *)
(* ------------------------------------------------------------------ *)

Lemma subsequence_nil_l {A} (l : list A) : subsequence [] l.
Proof. induction l; constructor; assumption. Qed.

Lemma subsequence_In {A} (l1 l2 : list A) (x : A) :
  subsequence l1 l2 -> In x l1 -> In x l2.
Proof.
  induction 1; simpl; intros Hin; auto.
  destruct Hin as [->|Hin]; auto.
Qed.

Lemma subsequence_NoDup {A} (l1 l2 : list A) :
  subsequence l1 l2 -> NoDup l2 -> NoDup l1.
Proof.
  induction 1 as [|x l1 l2 Hs IH|x l1 l2 Hs IH]; intros Hnd.
  - constructor.
  - inversion Hnd; auto.
  - inversion Hnd as [|? ? Hnotin Hnd']; subst. constructor; auto.
    intros Hin. apply Hnotin. eapply subsequence_In; eassumption.
Qed.

Lemma subsequence_length {A} (l1 l2 : list A) :
  subsequence l1 l2 -> length l1 <= length l2.
Proof. induction 1; simpl; lia. Qed.

Lemma choco_parts_trimmed (line p : string) :
  In p (choco_parts line) -> trimmed p.
Proof.
  unfold choco_parts. intros H. apply filter_In in H. destruct H as [Hin Hn].
  apply in_map_iff in Hin. destruct Hin as (q & <- & _).
  split; [now apply nonempty_neq|apply strip_idempotent].
Qed.

Lemma winget_list_row_trimmed (pos : positions) (line n i v : string) :
  winget_list_row pos line = Some (n, i, v) ->
  trimmed n /\ trimmed i /\ trimmed v.
Proof.
  unfold winget_list_row. destruct (_ || _); [discriminate|].
  destruct (_ && _) eqn:Hg; [|discriminate].
  intros H. inversion H; subst; clear H.
  apply andb_true_iff in Hg. destruct Hg as [Hg Hv].
  apply andb_true_iff in Hg. destruct Hg as [Hn Hi].
  repeat split; try (now apply nonempty_neq); apply strip_idempotent.
Qed.

Section ScannerFacts.
Context {host : Host}.
Variable clock : World -> datetime * World.

Lemma new_app_returns (n s v : string) (i p : option string) (m : machine) :
  exists t m',
    new_app clock n s v i p m = (Val (mkAppInfo n s v "" i UNKNOWN None p t), m')
    /\ objects m' = objects m /\ commands m' = commands m
    /\ console m' = console m.
Proof.
  unfold new_app, bind, now, ret. destruct (clock (world m)) as [t w'].
  eexists _, _. repeat split.
Qed.

(** A loop that appends at most one item per turn: the items it added,
    each with the element of the list it was made for. *)
Lemma for_acc_appends {X} (P : X -> AppInfo -> Prop) (l : list X)
      (body : X -> list AppInfo -> M (list AppInfo)) :
  (forall x acc m acc' m',
      body x acc m = (Val acc', m') ->
      objects m' = objects m
      /\ (acc' = acc \/ exists a, acc' = acc ++ [a] /\ P x a)) ->
  forall acc m acc' m',
    for_acc l acc body m = (Val acc', m') ->
    objects m' = objects m
    /\ exists xs new,
        acc' = acc ++ new /\ Forall2 P xs new /\ subsequence xs l.
Proof.
  intros Hbody. induction l as [|x l IH]; simpl; intros acc m acc' m' Hrun.
  - inversion Hrun; subst. split; [reflexivity|].
    exists [], []. rewrite app_nil_r. repeat constructor.
  - unfold bind in Hrun.
    destruct (body x acc m) as [[acc1|] m1] eqn:Hb; [|discriminate].
    apply Hbody in Hb. destruct Hb as [Ho Hb].
    apply IH in Hrun. destruct Hrun as (Ho' & xs & new & -> & Hall & Hsub).
    split; [congruence|].
    destruct Hb as [->|(a & -> & Ha)].
    + exists xs, new. repeat split; [assumption|now constructor].
    + exists (x :: xs), (a :: new). rewrite <- app_assoc. simpl.
      repeat split; constructor; assumption.
Qed.

(** What [scan_chocolatey] returns: one item at most per line of the
    listing, each of source Chocolatey, Unknown and without a candidate,
    with a name and a version that are not empty and have no white space
    around them, and the name as its id.  No object is assigned to. *)
Theorem scan_chocolatey_items (m m' : machine) (apps : list AppInfo) :
  scan_chocolatey clock m = (Val apps, m') ->
  objects m' = objects m
  /\ Forall (fun a => fresh_item "Chocolatey" a
                      /\ trimmed (name a) /\ trimmed (version a)
                      /\ app_id a = Some (name a) /\ install_path a = None)
            apps.
Proof.
  unfold scan_chocolatey, bind.
  pose proof (run_command_state
                ["choco"; "list"; "--local-only"; "--limit-output"]
                default_timeout false false m) as (Ho & _).
  destruct (run_command _ _ _ _ m) as [[[[|c text]|]|] m1]; simpl in Ho;
    try discriminate;
    try (unfold ret; intros H; inversion H; subst; split;
         [exact Ho|constructor]).
  intros Hloop.
  apply (for_acc_appends
           (fun (line : string) a =>
              fresh_item "Chocolatey" a
              /\ trimmed (name a) /\ trimmed (version a)
              /\ app_id a = Some (name a) /\ install_path a = None))
    in Hloop.
  - destruct Hloop as (Ho' & xs & new & -> & Hall & _).
    split; [congruence|]. simpl.
    clear - Hall. induction Hall; constructor; assumption.
  - clear. intros line acc m acc' m' Hb.
    destruct (choco_parts line) as [|n [|v rest]] eqn:Hp;
      try (unfold ret in Hb; inversion Hb; subst; split; [reflexivity|now left]).
    unfold bind in Hb.
    destruct (new_app_returns n "Chocolatey" v (Some n) None m)
      as (t & m1 & Hnew & Ho & _).
    rewrite Hnew in Hb. unfold ret in Hb. inversion Hb; subst; clear Hb.
    split; [exact Ho|]. right. eexists. split; [reflexivity|].
    assert (Hn : trimmed n)
      by (apply (choco_parts_trimmed line); rewrite Hp; now left).
    assert (Hv : trimmed v)
      by (apply (choco_parts_trimmed line); rewrite Hp; right; now left).
    repeat split; simpl; try apply Hn; try apply Hv.
Qed.

(** What [scan_winget] returns: items of source Winget, Unknown and
    without a candidate, whose name, id and version are not empty and
    have no white space around them; nothing when the listing has no
    header line.  No object is assigned to. *)
Theorem scan_winget_items (m m' : machine) (apps : list AppInfo) :
  scan_winget clock m = (Val apps, m') ->
  objects m' = objects m
  /\ Forall (fun a => fresh_item "Winget" a
                      /\ trimmed (name a) /\ trimmed (version a)
                      /\ (exists i, app_id a = Some i /\ trimmed i)
                      /\ install_path a = None)
            apps.
Proof.
  unfold scan_winget, bind.
  pose proof (run_command_state
                ["winget"; "list"; "--accept-source-agreements"]
                default_timeout false false m) as (Ho & _).
  destruct (run_command _ _ _ _ m) as [[[[|c text]|]|] m1]; simpl in Ho;
    try discriminate;
    try (unfold ret; intros H; inversion H; subst; split;
         [exact Ho|constructor]).
  destruct (first_index is_list_header _) as [header_index|];
    [|unfold ret; intros H; inversion H; subst; split; [exact Ho|constructor]].
  intros Hloop.
  apply (for_acc_appends
           (fun (line : string) a =>
              fresh_item "Winget" a
              /\ trimmed (name a) /\ trimmed (version a)
              /\ (exists i, app_id a = Some i /\ trimmed i)
              /\ install_path a = None))
    in Hloop.
  - destruct Hloop as (Ho' & xs & new & -> & Hall & _).
    split; [congruence|]. simpl.
    clear - Hall. induction Hall; constructor; assumption.
  - clear. intros line acc m acc' m' Hb.
    destruct (winget_list_row _ line) as [[[n id] v]|] eqn:Hrow;
      [|unfold ret in Hb; inversion Hb; subst; split; [reflexivity|now left]].
    unfold bind in Hb.
    destruct (new_app_returns n "Winget" v (Some id) None m)
      as (t & m1 & Hnew & Ho & _).
    rewrite Hnew in Hb. unfold ret in Hb. inversion Hb; subst; clear Hb.
    split; [exact Ho|]. right. eexists. split; [reflexivity|].
    apply winget_list_row_trimmed in Hrow. destruct Hrow as (Hn & Hi & Hv).
    repeat split; simpl; try apply Hn; try apply Hv.
    exists id. split; [reflexivity|exact Hi].
Qed.

Lemma executables_NoDup : NoDup executables.
Proof.
  unfold executables.
  repeat (constructor; [simpl; intuition discriminate|]). constructor.
Qed.

(** What [scan_path] returns: items of source PATH, Unknown and without
    a candidate, with an install path and no id, whose names are names
    of the allow-list in its order, each at most once.  No object is
    assigned to. *)
Theorem scan_path_items (m m' : machine) (apps : list AppInfo) :
  scan_path clock m = (Val apps, m') ->
  objects m' = objects m
  /\ subsequence (map name apps) executables
  /\ NoDup (map name apps)
  /\ Forall (fun a => fresh_item "PATH" a /\ app_id a = None
                      /\ install_path a <> None)
            apps.
Proof.
  unfold scan_path. intros Hloop.
  apply (for_acc_appends
           (fun (exe : string) a =>
              name a = exe /\ fresh_item "PATH" a /\ app_id a = None
              /\ install_path a <> None))
    in Hloop.
  - destruct Hloop as (Ho & xs & new & -> & Hall & Hsub). simpl.
    assert (Hnames : map name new = xs).
    { clear - Hall. induction Hall as [|x a xs new (Hn & _) _ IH]; simpl;
        [reflexivity|]. now rewrite Hn, IH. }
    split; [exact Ho|]. rewrite Hnames. split; [exact Hsub|].
    split; [eapply subsequence_NoDup; [exact Hsub|apply executables_NoDup]|].
    clear - Hall. induction Hall as [|x a xs new (_ & H) _ IH];
      constructor; assumption.
  - clear. intros exe acc m acc' m' Hb.
    unfold scan_path_step, bind in Hb.
    pose proof (run_command_state
                  (if is_windows then ["where"; exe] else ["which"; exe])
                  default_timeout false false m) as (Ho1 & _).
    destruct (run_command _ _ _ _ m) as [[[[|c found]|]|] m1]; simpl in Ho1;
      try discriminate;
      try (unfold ret in Hb; inversion Hb; subst; split; [exact Ho1|now left]).
    pose proof (run_command_state [exe; "--version"]
                  default_timeout false false m1) as (Ho2 & _).
    destruct (run_command _ _ _ _ m1) as [[[[|c' text]|]|] m2]; simpl in Ho2;
      try discriminate;
      try (unfold ret in Hb; inversion Hb; subst; split;
           [congruence|now left]).
    destruct (re_search _ _ _) as [v|];
      [|unfold ret in Hb; inversion Hb; subst; split; [congruence|now left]].
    match type of Hb with
    | context [new_app clock ?n ?s ?v ?i ?p m2] =>
        destruct (new_app_returns n s v i p m2) as (t & m3 & Hnew & Ho3 & _)
    end.
    rewrite Hnew in Hb. unfold ret in Hb. inversion Hb; subst; clear Hb.
    split; [congruence|]. right. eexists. split; [reflexivity|].
    repeat split; simpl. discriminate.
Qed.

End ScannerFacts.

(* ------------------------------------------------------------------ *)
(** ** The settings *)
(* ------------------------------------------------------------------ *)

Lemma json_induction (P : json -> Prop) :
  P JNull ->
  (forall b, P (JBool b)) ->
  (forall n, P (JNum n)) ->
  (forall s, P (JStr s)) ->
  (forall l, Forall P l -> P (JList l)) ->
  (forall d, Forall (fun kv => P (snd kv)) d -> P (JDict d)) ->
  forall j, P j.
Proof.
  intros HNull HBool HNum HStr HList HDict.
  fix IH 1.
  intros [|b|n|s|l|d];
    [exact HNull|apply HBool|apply HNum|apply HStr| |].
  - apply HList. induction l as [|x l IHl]; constructor; [apply IH|exact IHl].
  - apply HDict. induction d as [|[k v] d IHd]; constructor;
      [apply IH|exact IHd].
Qed.

Lemma merge_settings_nil (base : dict json) :
  _merge_settings base (JDict []) = (Val tt, base).
Proof. reflexivity. Qed.

Lemma merge_settings_cons (base : dict json) (key : string) (value : json)
      (rest : list (string * json)) :
  _merge_settings base (JDict ((key, value) :: rest)) =
  match dict_get key base, value with
  | Some (JDict sub), JDict _ =>
      match _merge_settings sub value with
      | (Val _, sub') =>
          _merge_settings (dict_set key (JDict sub') base) (JDict rest)
      | (Raised, sub') => (Raised, dict_set key (JDict sub') base)
      end
  | _, _ => _merge_settings (dict_set key value base) (JDict rest)
  end.
Proof.
  simpl. destruct (dict_get key base) as [[| | | | |sub]|]; reflexivity.
Qed.

Lemma merge_settings_returns (loaded : json) :
  forall base, is_dict loaded = true ->
               fst (_merge_settings base loaded) = Val tt.
Proof.
  induction loaded as [|b|n|s|l _|d Hd] using json_induction;
    intros base Hdict; try discriminate.
  clear Hdict. revert base.
  induction Hd as [|[k v] d Hv _ IH]; intros base; [reflexivity|].
  rewrite merge_settings_cons.
  destruct (dict_get k base) as [[| | | | |sub]|]; try apply IH.
  destruct v as [| | | | |items]; try apply IH.
  specialize (Hv sub eq_refl). simpl snd in Hv.
  destruct (_merge_settings sub (JDict items)) as [[[]|] sub'];
    simpl in Hv; [apply IH|discriminate].
Qed.

Lemma merge_settings_step (base : dict json) (key : string) (value : json)
      (rest : list (string * json)) :
  _merge_settings base (JDict ((key, value) :: rest)) =
  _merge_settings (dict_set key (merged_value (dict_get key base) value) base)
                  (JDict rest).
Proof.
  rewrite merge_settings_cons. unfold merged_value.
  destruct (dict_get key base) as [[| | | | |sub]|]; try reflexivity.
  destruct value as [| | | | |items]; try reflexivity.
  pose proof (merge_settings_returns (JDict items) sub eq_refl) as Hr.
  destruct (_merge_settings sub (JDict items)) as [[[]|] sub'];
    simpl in Hr; [reflexivity|discriminate].
Qed.

Lemma dict_set_same {V} (k : string) (v : V) (d : dict V) :
  dict_get k d = Some v -> dict_set k v d = d.
Proof.
  induction d as [|[k' v'] d IH]; simpl; [discriminate|].
  destruct (String.eqb_spec k' k) as [->|Hne].
  - intros H. inversion H. reflexivity.
  - intros H. now rewrite IH.
Qed.

Lemma dict_get_In {V} (k : string) (v : V) (d : dict V) :
  NoDup (map fst d) -> In (k, v) d -> dict_get k d = Some v.
Proof.
  induction d as [|[k' v'] d IH]; simpl; intros Hnd Hin; [contradiction|].
  inversion Hnd as [|? ? Hnotin Hnd']; subst.
  destruct Hin as [Heq|Hin].
  - inversion Heq; subst. now rewrite String.eqb_refl.
  - destruct (String.eqb_spec k' k) as [->|Hne]; [|auto].
    exfalso. apply Hnotin. apply in_map_iff. now exists (k, v).
Qed.

Lemma dict_get_keys {V} (k : string) (d : dict V) :
  dict_get k d <> None <-> In k (dict_keys d).
Proof.
  induction d as [|[k' v'] d IH]; simpl; [tauto|].
  destruct (String.eqb_spec k' k) as [->|Hne].
  - split; [now left|discriminate].
  - rewrite IH. split; [now right|]. intros [H|H]; [contradiction|exact H].
Qed.

Lemma distinct_keys_values (d : list (string * json)) (k : string) (v : json) :
  distinct_keys (JDict d) -> In (k, v) d -> distinct_keys v.
Proof.
  intros [_ Hall]. induction d as [|[k' v'] d IH]; simpl; [contradiction|].
  destruct Hall as [Hv Hall]. intros [Heq|Hin].
  - inversion Heq; subst. exact Hv.
  - apply IH; assumption.
Qed.

(** What the loop does to the dict, key by key. *)
Lemma merge_settings_keys (items : list (string * json)) :
  forall base,
    let d := snd (_merge_settings base (JDict items)) in
    (exists extra, dict_keys d = dict_keys base ++ extra
                   /\ incl extra (map fst items))
    /\ (forall k, ~ In k (map fst items) -> dict_get k d = dict_get k base)
    /\ (forall k, In k (map fst items) -> In k (dict_keys d)).
Proof.
  induction items as [|[key value] rest IH]; intros base; cbv zeta.
  - rewrite merge_settings_nil. simpl.
    split; [exists []; split; [now rewrite app_nil_r|apply incl_refl]|].
    split; [reflexivity|tauto].
  - rewrite merge_settings_step.
    set (base' := dict_set key (merged_value (dict_get key base) value) base).
    destruct (IH base') as ((extra & Hk & Hincl) & Hget & Hin).
    assert (Hk' : exists e, dict_keys base' = dict_keys base ++ e
                            /\ incl e [key]).
    { unfold base'. rewrite dict_keys_set.
      destruct (mem_string key (dict_keys base)).
      - exists []. split; [now rewrite app_nil_r|intros x []].
      - exists [key]. split; [reflexivity|apply incl_refl]. }
    destruct Hk' as (e & He & Hince).
    split.
    { exists (e ++ extra). split; [rewrite Hk, He; now rewrite app_assoc|].
      intros x Hx. apply in_app_or in Hx. simpl.
      destruct Hx as [Hx|Hx]; [apply Hince in Hx; simpl in Hx; tauto|].
      right. now apply Hincl. }
    split.
    + intros k Hn. simpl in Hn.
      destruct (in_dec string_dec k (map fst rest)) as [Hr|Hr];
        [exfalso; auto|].
      rewrite (Hget k Hr). unfold base'. rewrite dict_get_set.
      destruct (String.eqb_spec key k) as [->|Hne]; [exfalso; auto|reflexivity].
    + intros k [<-|Hr]; [|now apply Hin].
      rewrite Hk. apply in_or_app. left. apply dict_get_keys.
      unfold base'. rewrite dict_get_set, String.eqb_refl. discriminate.
Qed.

Lemma merge_settings_value (items : list (string * json)) :
  forall base k v,
    NoDup (map fst items) -> In (k, v) items ->
    dict_get k (snd (_merge_settings base (JDict items)))
    = Some (merged_value (dict_get k base) v).
Proof.
  induction items as [|[key value] rest IH]; intros base k v Hnd Hin;
    [contradiction|].
  simpl in Hnd. inversion Hnd as [|? ? Hnotin Hnd']; subst.
  rewrite merge_settings_step.
  set (base' := dict_set key (merged_value (dict_get key base) value) base).
  destruct Hin as [Heq|Hin].
  - inversion Heq; subst.
    destruct (merge_settings_keys rest base') as (_ & Hget & _).
    rewrite (Hget k Hnotin). unfold base'.
    now rewrite dict_get_set, String.eqb_refl.
  - rewrite (IH base' k v Hnd' Hin). unfold base'. rewrite dict_get_set.
    destruct (String.eqb_spec key k) as [->|Hne]; [|reflexivity].
    exfalso. apply Hnotin. apply in_map_iff. now exists (k, v).
Qed.

(** Merging a dict into itself changes nothing. *)
Lemma merge_settings_self (loaded : json) :
  distinct_keys loaded ->
  forall items, loaded = JDict items ->
                snd (_merge_settings items loaded) = items.
Proof.
  induction loaded as [|b|n|s|l _|d Hd] using json_induction;
    intros Hdist items Heq; try discriminate.
  inversion Heq; subst items; clear Heq.
  assert (Hsub : forall items,
             incl items d -> snd (_merge_settings d (JDict items)) = d).
  { induction items as [|[key value] rest IH]; intros Hincl; [reflexivity|].
    rewrite merge_settings_step.
    assert (Hin : In (key, value) d) by (apply Hincl; now left).
    rewrite (dict_get_In key value d (proj1 Hdist) Hin).
    assert (Hsame : merged_value (Some value) value = value).
    { unfold merged_value. destruct value as [| | | | |sub]; try reflexivity.
      rewrite Forall_forall in Hd. f_equal.
      apply (Hd (key, JDict sub) Hin); [|reflexivity].
      eapply distinct_keys_values; eassumption. }
    rewrite Hsame.
    rewrite (dict_set_same key d (dict_get_In key value d (proj1 Hdist) Hin)).
    apply IH. intros x Hx. apply Hincl. now right. }
  apply Hsub, incl_refl.
Qed.

Lemma merge_settings_twice (loaded : json) :
  distinct_keys loaded ->
  forall base,
    snd (_merge_settings (snd (_merge_settings base loaded)) loaded)
    = snd (_merge_settings base loaded).
Proof.
  induction loaded as [|b|n|s|l _|d Hd] using json_induction;
    intros Hdist base; try reflexivity.
  set (d1 := snd (_merge_settings base (JDict d))).
  assert (Hvalues : forall k v, In (k, v) d ->
                                exists old, dict_get k d1
                                            = Some (merged_value old v)).
  { intros k v Hin. exists (dict_get k base).
    apply merge_settings_value; [exact (proj1 Hdist)|exact Hin]. }
  assert (Hsub : forall items,
             incl items d -> snd (_merge_settings d1 (JDict items)) = d1).
  { induction items as [|[key value] rest IH]; intros Hincl; [reflexivity|].
    rewrite merge_settings_step.
    assert (Hin : In (key, value) d) by (apply Hincl; now left).
    destruct (Hvalues key value Hin) as [old Hold]. rewrite Hold.
    assert (Hdv : distinct_keys value)
      by (eapply distinct_keys_values; eassumption).
    assert (Hsame : merged_value (Some (merged_value old value)) value
                    = merged_value old value).
    { rewrite Forall_forall in Hd. specialize (Hd (key, value) Hin Hdv).
      simpl in Hd. unfold merged_value.
      destruct value as [| | | | |sub];
        try (destruct old as [[]|]; reflexivity).
      destruct old as [[| | | | |osub]|];
        try (f_equal; now apply merge_settings_self).
      f_equal. apply Hd. }
    rewrite Hsame. rewrite (dict_set_same key d1 Hold).
    apply IH. intros x Hx. apply Hincl. now right. }
  apply Hsub, incl_refl.
Qed.

(** [_merge_settings] on a dict never raises; it keeps every key of
    [base] at its place, adds the new keys after them, leaves alone the
    keys the loaded dict does not have, and decides every other key by
    the one entry the loaded dict has for it: the loaded value, or the
    merge of the two when both are dicts.  On anything but a dict it
    raises and [base] is as before. *)
Theorem merge_settings_by_key (base : dict json) (loaded : json) :
  (is_dict loaded = false -> _merge_settings base loaded = (Raised, base))
  /\ forall items,
      loaded = JDict items ->
      exists d,
        _merge_settings base loaded = (Val tt, d)
        /\ (exists extra,
               dict_keys d = dict_keys base ++ extra
               /\ forall k, In k extra -> In k (map fst items))
        /\ (forall k, ~ In k (map fst items) -> dict_get k d = dict_get k base)
        /\ (NoDup (map fst items) ->
            forall k v, In (k, v) items ->
                        dict_get k d = Some (merged_value (dict_get k base) v)).
Proof.
  split; [destruct loaded; try reflexivity; discriminate|].
  intros items ->.
  exists (snd (_merge_settings base (JDict items))).
  split.
  { pose proof (merge_settings_returns (JDict items) base eq_refl) as Hr.
    destruct (_merge_settings base (JDict items)) as [r d]. simpl in *.
    now subst. }
  destruct (merge_settings_keys items base)
    as ((extra & Hk & Hincl) & Hget & Hin).
  split; [|split; [exact Hget|]].
  - exists extra. split; [exact Hk|exact Hincl].
  - intros Hnd k v. now apply merge_settings_value.
Qed.

(** Reading the same settings file a second time changes nothing. *)
Theorem config_load_idempotent (file : cache_file) (settings : dict json) :
  (forall loaded, file = Document loaded -> distinct_keys loaded) ->
  config_load file (config_load file settings) = config_load file settings.
Proof.
  destruct file as [| |loaded]; try reflexivity.
  intros Hdist. simpl. apply merge_settings_twice. now apply Hdist.
Qed.

(* ------------------------------------------------------------------ *)
(** ** A machine without package managers and without network *)
(* ------------------------------------------------------------------ *)

Lemma is_newer_same (v : string) : is_newer v v = false.
Proof. unfold is_newer. now rewrite String.eqb_refl. Qed.

Lemma silent_path_idempotent (a : AppInfo) :
  silent_path (silent_path a) = silent_path a.
Proof.
  unfold silent_path.
  destruct (String.eqb (name a) "python" && Text.nonempty (version a)) eqn:Hc;
    [|now rewrite Hc].
  simpl. now rewrite Hc.
Qed.

Lemma silent_check_idempotent (a : AppInfo) :
  silent_check (silent_check a) = silent_check a.
Proof.
  unfold silent_check.
  destruct (String.eqb (source a) "Registry") eqn:Hr; [simpl; now rewrite Hr|].
  destruct (String.eqb (source a) "PATH") eqn:Hp; [|now rewrite Hr, Hp].
  assert (Hs : source (silent_path a) = source a)
    by (unfold silent_path; destruct (_ && _); reflexivity).
  rewrite Hs, Hr, Hp. apply silent_path_idempotent.
Qed.

Lemma silent_check_source (a : AppInfo) : source (silent_check a) = source a.
Proof.
  unfold silent_check, silent_path.
  destruct (String.eqb (source a) "Registry"); [reflexivity|].
  destruct (String.eqb (source a) "PATH"); [|reflexivity].
  destruct (_ && _); reflexivity.
Qed.

Lemma existsb_filter (r : ref) (p : ref -> bool) (apps : list ref) :
  existsb (Nat.eqb r) (filter p apps) = existsb (Nat.eqb r) apps && p r.
Proof.
  induction apps as [|x apps IH]; simpl; [reflexivity|].
  destruct (p x) eqn:Hp; simpl; rewrite IH.
  - destruct (Nat.eqb_spec r x) as [->|Hne]; simpl; [now rewrite Hp|reflexivity].
  - destruct (Nat.eqb_spec r x) as [->|Hne]; simpl; [|reflexivity].
    rewrite Hp. now rewrite andb_false_r.
Qed.

Section SilentHost.
Context {host : Host}.
Hypothesis no_command :
  forall w argv timeout, fst (spawn w argv timeout) = FileNotFoundError.
Hypothesis no_network : forall w url, fst (urlopen w url) = None.

Lemma run_command_silent (cmd : list string) (timeout : Z)
      (allow_failure include_stderr : bool) (m : machine) :
  cmd <> [] ->
  exists m1,
    run_command cmd timeout allow_failure include_stderr m = (Val None, m1)
    /\ objects m1 = objects m.
Proof.
  intros Hcmd. unfold run_command.
  assert (Hres : exists argv, resolve_executable (world m) cmd = Some argv).
  { unfold resolve_executable. destruct is_windows; [|eauto].
    destruct cmd as [|c rest]; [contradiction|].
    destruct (which (world m) c) as [e|]; [|eauto].
    destruct (Text.nonempty e); eauto. }
  destruct Hres as [argv ->].
  pose proof (no_command (world m) argv timeout) as Hs.
  destruct (spawn (world m) argv timeout) as [r w']. simpl in Hs. subst r.
  eexists. split; reflexivity.
Qed.

Lemma fetch_json_silent (url : string) (m : machine) :
  exists m1, fetch_json url m = (Val None, m1) /\ objects m1 = objects m.
Proof.
  unfold fetch_json. pose proof (no_network (world m) url) as Hn.
  destruct (urlopen (world m) url) as [body w']. simpl in Hn. subst body.
  eexists. split; reflexivity.
Qed.

Ltac silent_run m :=
  match goal with
  | |- context [run_command ?c ?t ?a ?i m] =>
      let m1 := fresh "m" in
      let Hr := fresh "Hrun" in
      let Ho := fresh "Hobj" in
      destruct (@run_command_silent c t a i m ltac:(discriminate))
        as (m1 & Hr & Ho);
      rewrite Hr
  end.

Ltac silent_fetch m :=
  match goal with
  | |- context [fetch_json ?u m] =>
      let m1 := fresh "m" in
      let Hr := fresh "Hfetch" in
      let Ho := fresh "Hobj" in
      destruct (fetch_json_silent u m) as (m1 & Hr & Ho);
      rewrite Hr
  end.

(** The checkers that read one listing find nothing. *)
Lemma listing_checkers_silent (apps : list ref) (m : machine) :
  forall c,
    In c [_check_winget_updates; _check_choco_updates; _check_npm_updates;
          _check_pnpm_updates; _check_pip_updates] ->
    exists m1, c apps m = (Val 0, m1) /\ objects m1 = objects m.
Proof.
  intros c Hc. simpl in Hc.
  destruct Hc as [<-|[<-|[<-|[<-|[<-|[]]]]]];
    [unfold _check_winget_updates|unfold _check_choco_updates
     |unfold _check_npm_updates|unfold _check_pnpm_updates
     |unfold _check_pip_updates];
    unfold bind; silent_run m; eexists; (split; [reflexivity|assumption]).
Qed.

Lemma npm_info_loop_silent (apps : list ref) :
  forall n m,
    exists m1,
      for_acc apps n npm_info_step m = (Val n, m1) /\ objects m1 = objects m.
Proof.
  induction apps as [|r apps IH]; intros n m; simpl.
  - eexists. split; reflexivity.
  - unfold bind at 1, npm_info_step, bind, get_objects. silent_run m.
    destruct (IH n m0) as (m1 & Hloop & Ho).
    exists m1. split; [exact Hloop|congruence].
Qed.

Lemma registry_silent (apps : list ref) (m : machine) :
  exists m1,
    _check_registry_updates apps m = (Val 0, m1)
    /\ forall r, objects m1 r
                 = if existsb (Nat.eqb r) apps
                   then set_update_status UP_TO_DATE (objects m r)
                   else objects m r.
Proof.
  unfold _check_registry_updates, bind. silent_run m.
  unfold on_objects. eexists. split; [reflexivity|].
  intros r. simpl. rewrite Hobj. unfold mark_all_up_to_date.
  now apply modify_each.
Qed.

Lemma path_latest_silent (a : AppInfo) (m : machine) :
  exists m1,
    path_latest a m
    = (Val (if String.eqb (name a) "python" then version a else ""), m1)
    /\ objects m1 = objects m.
Proof.
  unfold path_latest.
  destruct (String.eqb_spec (name a) "python") as [E|NE].
  - rewrite E.
    change (String.eqb "python" "bun") with false.
    change (String.eqb "python" "deno") with false.
    change (mem_string "python" ["yarn"; "npm"; "pnpm"; "node"]) with false.
    change (String.eqb "python" "python") with true.
    cbv iota. unfold bind. silent_fetch m.
    eexists. split; [reflexivity|assumption].
  - destruct (String.eqb (name a) "bun");
      [unfold bind; silent_run m; eexists; split; [reflexivity|assumption]|].
    destruct (String.eqb (name a) "deno");
      [unfold bind; silent_run m; eexists; split; [reflexivity|assumption]|].
    destruct (mem_string (name a) ["yarn"; "npm"; "pnpm"; "node"]);
      [unfold bind; silent_run m; eexists; split; [reflexivity|assumption]|].
    destruct (String.eqb (name a) "git");
      [unfold bind; silent_fetch m; eexists; split; [reflexivity|assumption]|].
    destruct (String.eqb (name a) "pwsh");
      [unfold bind; silent_fetch m; eexists; split; [reflexivity|assumption]|].
    destruct (String.eqb (name a) "dotnet");
      [unfold bind; silent_run m; eexists; split; [reflexivity|assumption]|].
    eexists. split; reflexivity.
Qed.

Lemma path_step_silent (r : ref) (n : nat) (m : machine) :
  exists m1,
    path_step r n m = (Val n, m1)
    /\ forall r', objects m1 r' = modify r silent_path (objects m) r'.
Proof.
  unfold path_step, catch, bind, get_objects.
  destruct (path_latest_silent (objects m r) m) as (m1 & Hl & Ho).
  rewrite Hl. unfold silent_path, modify.
  destruct (String.eqb (name (objects m r)) "python") eqn:Hp; simpl andb.
  - destruct (Text.nonempty (version (objects m r))) eqn:Hv.
    + unfold on_objects. rewrite Ho.
      destruct (path_decide_at r (version (objects m r)) (objects m, n))
        as (Hat & Hn & Hother).
      simpl fst in Hat, Hn, Hother. simpl snd in Hn.
      rewrite is_newer_same in Hat, Hn.
      destruct (path_decide r (version (objects m r)) (objects m, n))
        as [h k] eqn:Hd.
      simpl in Hat, Hn, Hother. subst k.
      eexists. split; [reflexivity|]. intros r'. simpl.
      destruct (Nat.eqb_spec r' r) as [->|Hne].
      * rewrite Hat, Hp, Hv. reflexivity.
      * now rewrite (Hother r' Hne).
    + eexists. split; [reflexivity|]. intros r'. rewrite Ho.
      destruct (Nat.eqb_spec r' r) as [->|Hne]; [|reflexivity].
      now rewrite Hp, Hv.
  - eexists. split; [reflexivity|]. intros r'. rewrite Ho.
    destruct (Nat.eqb_spec r' r) as [->|Hne]; [|reflexivity].
    now rewrite Hp.
Qed.

Lemma path_silent (apps : list ref) :
  forall n m,
    exists m1,
      for_acc apps n path_step m = (Val n, m1)
      /\ forall r, objects m1 r
                   = if existsb (Nat.eqb r) apps then silent_path (objects m r)
                     else objects m r.
Proof.
  induction apps as [|x apps IH]; intros n m; simpl.
  - eexists. split; reflexivity.
  - unfold bind at 1.
    destruct (path_step_silent x n m) as (m1 & Hstep & Ho). rewrite Hstep.
    destruct (IH n m1) as (m2 & Hloop & Ho2).
    exists m2. split; [exact Hloop|]. intros r. rewrite Ho2, !Ho.
    destruct (Nat.eqb_spec r x) as [->|Hne]; simpl.
    + rewrite modify_same.
      destruct (existsb (Nat.eqb x) apps);
        [apply silent_path_idempotent|reflexivity].
    + now rewrite modify_other.
Qed.

(** One checker on its group: every object of the group whose source is
    the checker's gets [silent_check], nothing is counted. *)
Lemma check_source_silent (s : string) (group : list ref) (m : machine) :
  In s source_names ->
  (forall r, In r group -> source (objects m r) = s) ->
  exists m1,
    check_source s group m = (Val 0, m1)
    /\ forall r, objects m1 r
                 = if existsb (Nat.eqb r) group then silent_check (objects m r)
                   else objects m r.
Proof.
  intros Hs Hgroup.
  assert (Hplain : forall m1 : machine,
             objects m1 = objects m ->
             s <> "Registry" -> s <> "PATH" ->
             forall r, objects m1 r
                       = if existsb (Nat.eqb r) group
                         then silent_check (objects m r) else objects m r).
  { intros m1 Ho Hr Hp r. rewrite Ho.
    destruct (existsb (Nat.eqb r) group) eqn:Hin; [|reflexivity].
    apply existsb_eqb_In in Hin. unfold silent_check.
    rewrite (Hgroup r Hin).
    apply String.eqb_neq in Hr, Hp. now rewrite Hr, Hp. }
  unfold check_source. simpl in Hs.
  destruct Hs as [<-|[<-|[<-|[<-|[<-|[<-|[<-|[<-|[<-|[]]]]]]]]]]; simpl.
  - destruct (@listing_checkers_silent group m _check_winget_updates)
      as (m1 & Hc & Ho); [simpl; tauto|].
    exists m1. split; [exact Hc|]. apply Hplain; [exact Ho|discriminate..].
  - destruct (@listing_checkers_silent group m _check_choco_updates)
      as (m1 & Hc & Ho); [simpl; tauto|].
    exists m1. split; [exact Hc|]. apply Hplain; [exact Ho|discriminate..].
  - destruct (@listing_checkers_silent group m _check_npm_updates)
      as (m1 & Hc & Ho); [simpl; tauto|].
    exists m1. split; [exact Hc|]. apply Hplain; [exact Ho|discriminate..].
  - destruct (@listing_checkers_silent group m _check_pnpm_updates)
      as (m1 & Hc & Ho); [simpl; tauto|].
    exists m1. split; [exact Hc|]. apply Hplain; [exact Ho|discriminate..].
  - destruct (npm_info_loop_silent group 0 m) as (m1 & Hc & Ho).
    exists m1. split; [exact Hc|]. apply Hplain; [exact Ho|discriminate..].
  - destruct (npm_info_loop_silent group 0 m) as (m1 & Hc & Ho).
    exists m1. split; [exact Hc|]. apply Hplain; [exact Ho|discriminate..].
  - destruct (@listing_checkers_silent group m _check_pip_updates)
      as (m1 & Hc & Ho); [simpl; tauto|].
    exists m1. split; [exact Hc|]. apply Hplain; [exact Ho|discriminate..].
  - destruct (path_silent group 0 m) as (m1 & Hc & Ho).
    exists m1. split; [exact Hc|]. intros r. rewrite Ho.
    destruct (existsb (Nat.eqb r) group) eqn:Hin; [|reflexivity].
    apply existsb_eqb_In in Hin. unfold silent_check.
    now rewrite (Hgroup r Hin).
  - destruct (registry_silent group m) as (m1 & Hc & Ho).
    exists m1. split; [exact Hc|]. intros r. rewrite Ho.
    destruct (existsb (Nat.eqb r) group) eqn:Hin; [|reflexivity].
    apply existsb_eqb_In in Hin. unfold silent_check.
    now rewrite (Hgroup r Hin).
Qed.

Lemma check_groups_silent (h0 : heap) (apps : list ref) (names : list string) :
  incl names source_names ->
  forall m,
    (forall r, source (objects m r) = source (h0 r)) ->
    exists m1,
      for_acc (map (fun s => (s, apps_of_source h0 apps s)) names) 0
        (fun group total_updates =>
           match snd group with
           | [] => ret total_updates
           | source_apps =>
               n <- check_source (fst group) source_apps ;;
               ret (total_updates + n)
           end) m
      = (Val 0, m1)
      /\ forall r, objects m1 r
                   = if existsb (Nat.eqb r) apps
                        && mem_string (source (objects m r)) names
                     then silent_check (objects m r) else objects m r.
Proof.
  induction names as [|s names IH]; intros Hincl m Hsrc;
    cbn [map for_acc fst snd].
  - eexists. split; [reflexivity|]. intros r. simpl. now rewrite andb_false_r.
  - unfold bind at 1.
    assert (Hgroup : forall r, In r (apps_of_source h0 apps s) ->
                               source (objects m r) = s).
    { intros r Hin. unfold apps_of_source in Hin. apply filter_In in Hin.
      destruct Hin as [_ He]. apply String.eqb_eq in He. now rewrite Hsrc. }
    destruct (@check_source_silent s (apps_of_source h0 apps s) m
                (Hincl s (or_introl eq_refl)) Hgroup) as (m1 & Hc & Ho).
    assert (Hstep : exists m1',
               (match apps_of_source h0 apps s with
                | [] => ret 0
                | x :: l => n <- check_source s (x :: l) ;; ret (0 + n)
                end) m = (Val 0, m1')
               /\ forall r, objects m1' r = objects m1 r).
    { destruct (apps_of_source h0 apps s) as [|x group] eqn:Hg.
      - exists m. split; [reflexivity|]. intros r. now rewrite Ho.
      - exists m1. unfold bind. rewrite Hc. split; reflexivity. }
    destruct Hstep as (m1' & Hstep & Ho').
    rewrite Hstep.
    destruct (IH (fun x Hx => Hincl x (or_intror Hx)) m1') as (m2 & Hloop & Ho2).
    { intros r. rewrite Ho', Ho.
      destruct (existsb _ _); [rewrite silent_check_source|]; apply Hsrc. }
    exists m2. split; [exact Hloop|]. intros r.
    rewrite Ho2, !Ho', !Ho. unfold apps_of_source.
    rewrite existsb_filter, <- Hsrc. unfold mem_string. simpl existsb.
    rewrite (String.eqb_sym (source (objects m r)) s).
    destruct (existsb (Nat.eqb r) apps); simpl; [|reflexivity].
    destruct (String.eqb s (source (objects m r))) eqn:He; simpl.
    + rewrite silent_check_source, silent_check_idempotent.
      now destruct (existsb _ names).
    + reflexivity.
Qed.

(** On a machine where no command can be started and no request is
    answered, [check_all_updates] returns 0 and leaves every listed
    object as [reconcile (silent_check a)]: an item of the registry or
    of one of the seven managers is UpToDate unless it already was
    UpdateAvailable, though nothing was checked; python of the PATH
    probe gets its own cleaned version as candidate and is UpToDate;
    no other candidate version is written. *)
Theorem check_all_updates_silent (apps : list ref) (m : machine) :
  exists m',
    check_all_updates apps m = (Val 0, m')
    /\ (forall r, ~ In r apps -> objects m' r = objects m r)
    /\ forall r,
        In r apps ->
        objects m' r = reconcile (silent_check (objects m r))
        /\ (mem_string (source (objects m r)) checked_sources = true ->
            update_status (objects m r) <> UPDATE_AVAILABLE ->
            update_status (objects m' r) = UP_TO_DATE)
        /\ (latest_version (objects m' r) <> latest_version (objects m r) ->
            source (objects m r) = "PATH" /\ name (objects m r) = "python").
Proof.
  unfold check_all_updates, check_sources, bind at 1 2, get_objects.
  destruct (@check_groups_silent (objects m) apps source_names
              (incl_refl _) m (fun r => eq_refl)) as (m1 & Hloop & Ho).
  rewrite Hloop. unfold on_objects. eexists. split; [reflexivity|].
  assert (Hat : forall r, In r apps ->
                          objects m1 r = silent_check (objects m r)).
  { intros r Hin. rewrite Ho. apply existsb_eqb_In in Hin. rewrite Hin.
    rewrite andb_true_l.
    destruct (mem_string (source (objects m r)) source_names) eqn:Hm;
      [reflexivity|].
    unfold silent_check.
    destruct (String.eqb_spec (source (objects m r)) "Registry") as [E|_];
      [rewrite E in Hm; discriminate|].
    destruct (String.eqb_spec (source (objects m r)) "PATH") as [E|_];
      [rewrite E in Hm; discriminate|reflexivity]. }
  split.
  - intros r Hn. simpl. rewrite reconcile_all_at.
    destruct (existsb (Nat.eqb r) apps) eqn:Hin;
      [apply existsb_eqb_In in Hin; contradiction|].
    rewrite Ho, Hin. reflexivity.
  - intros r Hin. simpl objects. rewrite reconcile_all_at.
    rewrite (proj2 (existsb_eqb_In r apps) Hin), (Hat r Hin).
    split; [reflexivity|]. split.
    + intros Hsrc Hst. unfold reconcile.
      rewrite silent_check_source, Hsrc, orb_true_r.
      unfold silent_check, silent_path.
      destruct (String.eqb (source (objects m r)) "Registry");
        [reflexivity|].
      destruct (String.eqb (source (objects m r)) "PATH");
        [destruct (_ && _); [reflexivity|]|];
        destruct (update_status (objects m r)) eqn:Hu; try reflexivity;
        congruence.
    + intros Hl.
      assert (Hrec : forall a, latest_version (reconcile a) = latest_version a).
      { intros a. unfold reconcile.
        destruct (update_status a); try reflexivity;
          destruct (_ || _); reflexivity. }
      rewrite Hrec in Hl. unfold silent_check, silent_path in Hl.
      destruct (String.eqb (source (objects m r)) "Registry");
        [exfalso; now apply Hl|].
      destruct (String.eqb_spec (source (objects m r)) "PATH") as [E|_];
        [|exfalso; now apply Hl].
      destruct (String.eqb_spec (name (objects m r)) "python") as [E'|_];
        [split; assumption|exfalso; now apply Hl].
Qed.

End SilentHost.

(* ------------------------------------------------------------------ *)
(** ** The update of one package *)
(* ------------------------------------------------------------------ *)

Section SingleUpdateFacts.
Context {host : Host}.
Variable confirm_ask : World -> string -> bool * World.

Lemma execute_step_state (r : ref) (k : nat) (m : machine) :
  let m' := snd (execute_step false r k m) in
  objects m' = objects m
  /\ length (commands m') <= S (length (commands m)).
Proof.
  unfold execute_step, bind, get_objects, print, ret.
  pose proof (single_update_state (objects m r) m) as (Ho & Hc & Hk).
  destruct (_execute_single_update (objects m r) m) as [[success|] m1];
    simpl in Ho, Hc, Hk; [|simpl; split; assumption].
  destruct success; simpl; split; assumption.
Qed.

Lemma real_loop_state (apps : list ref) :
  forall (k : nat) (m : machine),
    let m' := snd (for_acc apps k (execute_step false) m) in
    objects m' = objects m
    /\ length (commands m') <= length (commands m) + length apps.
Proof.
  induction apps as [|r apps IH]; intros k m; cbv zeta; cbn [for_acc length].
  - simpl. split; [reflexivity|lia].
  - unfold bind.
    pose proof (execute_step_state r k m) as (Ho & Hk).
    destruct (execute_step false r k m) as [[k'|] m1]; simpl in Ho, Hk.
    + destruct (IH k' m1) as (Ho' & Hk'). split; [congruence|lia].
    + simpl. split; [assumption|lia].
Qed.

Lemma execute_updates_state (apps : list ref) (dry_run : bool) (m : machine) :
  let m' := snd (execute_updates apps dry_run m) in
  objects m' = objects m
  /\ length (commands m') <= length (commands m) + length apps
  /\ (dry_run = true -> commands m' = commands m).
Proof.
  unfold execute_updates, bind. destruct dry_run.
  - rewrite dry_run_loop. simpl. repeat split. lia.
  - pose proof (real_loop_state apps 0 m) as (Ho & Hk).
    destruct (for_acc apps 0 (execute_step false) m) as [[k|] m1];
      simpl in *; repeat split; try assumption; discriminate.
Qed.

Lemma is_candidate_name (n : string) (s : option string) (a : AppInfo) :
  is_candidate n s a = true -> Text.lower (name a) = n.
Proof.
  unfold is_candidate. intros H. apply andb_true_iff in H.
  now apply String.eqb_eq.
Qed.

(** Whatever [_handle_single_update] does, it starts one command at
    most and none in a dry run, and the only object it can assign to is
    a listed item whose name is the requested one up to case, of which
    it sets the candidate version to the version given. *)
Theorem handle_single_update_frame (apps : list ref) (args : Args) (m : machine) :
  let m' := snd (_handle_single_update confirm_ask apps args m) in
  length (commands m') <= S (length (commands m))
  /\ (args_dry_run args = true -> commands m' = commands m)
  /\ forall r,
      objects m' r = objects m r
      \/ (exists v,
             args_version args = Some v /\ v <> ""
             /\ In r apps
             /\ Text.lower (name (objects m r)) = Text.lower (args_package args)
             /\ objects m' r = set_latest_version v (objects m r)).
Proof.
  cbv zeta.
  destruct (_handle_single_update confirm_ask apps args m) as [out m'] eqn:Hrun.
  simpl snd. revert Hrun.
  unfold _handle_single_update, bind at 1, get_objects.
  set (target_source := if truthy (args_source args)
                        then option_map Text.lower (args_source args)
                        else None).
  assert (Hsame : forall lines : list notice,
             ret lines m = (out, m') ->
             length (commands m') <= S (length (commands m))
             /\ (args_dry_run args = true -> commands m' = commands m)
             /\ forall r,
                 objects m' r = objects m r
                 \/ (exists v,
                        args_version args = Some v /\ v <> ""
                        /\ In r apps
                        /\ Text.lower (name (objects m r))
                           = Text.lower (args_package args)
                        /\ objects m' r = set_latest_version v (objects m r))).
  { intros lines H. inversion H; subst.
    split; [lia|split; [reflexivity|intros r; now left]]. }
  destruct (filter _ apps) as [|target_app others] eqn:Hf; [apply Hsame|].
  assert (Hin : In target_app apps /\
                Text.lower (name (objects m target_app))
                = Text.lower (args_package args)).
  { assert (H : In target_app (target_app :: others)) by now left.
    rewrite <- Hf in H. apply filter_In in H. destruct H as [H1 H2].
    split; [exact H1|]. now apply is_candidate_name in H2. }
  destruct (_ && _); [apply Hsame|].
  assert (Hexec : forall m0 (lines : list notice),
             commands m0 = commands m ->
             (execute_updates [target_app] (args_dry_run args) ;;; ret lines) m0
             = (out, m') ->
             length (commands m') <= S (length (commands m))
             /\ (args_dry_run args = true -> commands m' = commands m)
             /\ objects m' = objects m0).
  { intros m0 lines Hc. unfold bind.
    pose proof (execute_updates_state [target_app] (args_dry_run args) m0)
      as (Ho' & Hk' & Hd').
    destruct (execute_updates [target_app] (args_dry_run args) m0)
      as [[[]|] m1]; simpl in Ho', Hk', Hd'; unfold ret;
      intros H; inversion H; subst; rewrite <- Hc;
      (split; [lia|split; [exact Hd'|exact Ho']]). }
  assert (Hplain : forall m0 (lines : list notice),
             objects m0 = objects m ->
             commands m0 = commands m ->
             (execute_updates [target_app] (args_dry_run args) ;;; ret lines) m0
             = (out, m') ->
             length (commands m') <= S (length (commands m))
             /\ (args_dry_run args = true -> commands m' = commands m)
             /\ forall r,
                 objects m' r = objects m r
                 \/ (exists v,
                        args_version args = Some v /\ v <> ""
                        /\ In r apps
                        /\ Text.lower (name (objects m r))
                           = Text.lower (args_package args)
                        /\ objects m' r = set_latest_version v (objects m r))).
  { intros m0 lines Ho Hc H.
    destruct (Hexec m0 lines Hc H) as (H1 & H2 & H3).
    split; [exact H1|]. split; [exact H2|]. intros r. left.
    now rewrite H3, Ho. }
  assert (Hasked : forall line : notice,
             (if negb (has_update (objects m target_app))
              then
                answer <- ask confirm_ask "🔄 Force reinstall?" ;;
                if negb answer then ret [line]
                else
                  execute_updates [target_app] (args_dry_run args) ;;;
                  ret [line]
              else
                execute_updates [target_app] (args_dry_run args) ;;; ret []) m
             = (out, m') ->
             length (commands m') <= S (length (commands m))
             /\ (args_dry_run args = true -> commands m' = commands m)
             /\ forall r,
                 objects m' r = objects m r
                 \/ (exists v,
                        args_version args = Some v /\ v <> ""
                        /\ In r apps
                        /\ Text.lower (name (objects m r))
                           = Text.lower (args_package args)
                        /\ objects m' r = set_latest_version v (objects m r))).
  { intros line.
    destruct (negb (has_update (objects m target_app)));
      [|now apply Hplain].
    unfold bind at 1, ask.
    destruct (confirm_ask (world m) _) as [answer w'].
    destruct (negb answer); [|now apply Hplain].
    unfold ret. intros H. inversion H; subst. simpl.
    split; [lia|split; [reflexivity|intros r; now left]]. }
  destruct (args_version args) as [[|c v]|] eqn:Hv;
    [apply Hasked| |apply Hasked].
  unfold bind at 1, put_objects. intros H.
  apply Hexec in H; [|reflexivity].
  destruct H as (H1 & H2 & H3).
  assert (H3' : objects m'
                = modify target_app (set_latest_version (String c v)) (objects m))
    by exact H3.
  clear H3. split; [exact H1|]. split; [exact H2|]. intros r. rewrite H3'.
  destruct (Nat.eq_dec r target_app) as [->|Hne].
  - right. exists (String c v). rewrite modify_same.
    destruct Hin as [Hi Hn].
    repeat split; try assumption; try reflexivity. discriminate.
  - left. now apply modify_other.
Qed.



End SingleUpdateFacts.

(* ------------------------------------------------------------------ *)
(** ** The further properties on concrete inputs *)
(* ------------------------------------------------------------------ *)

(** A command that prints [ ok ] and a line feed. *)
Lemma run_command_effects_witness :
  let host := exit_host 0 (" ok " ++ LF) "" in
  let m := @machine_of host tt [] in
  let outcome := @run_command host ["tool"] default_timeout false false m in
  fst outcome = Val (Some "ok")
  /\ objects (snd outcome) = objects m
  /\ console (snd outcome) = console m
  /\ exists argv, commands (snd outcome) = commands m ++ [argv].
Proof.
  intros host m outcome.
  assert (Hfst : fst outcome = Val (Some "ok")) by (vm_compute; reflexivity).
  destruct (@run_command_effects host ["tool"] default_timeout false false m
              (snd outcome) (Val (Some "ok")) (pair_of_fst _ Hfst))
    as (Ho & Hc & _ & Hout).
  destruct (Hout "ok" eq_refl) as (_ & _ & Hargv).
  split; [exact Hfst|]. split; [exact Ho|]. split; [exact Hc|exact Hargv].
Defined.

(** The check of a Chocolatey item and a PATH item, with a third object
    that is not in the list. *)
Lemma check_all_updates_frame_witness :
  let objs := [scanned "foo" "Chocolatey" "1.2.3.0" (Some "foo");
               scanned "git" "PATH" "2.44.0" None;
               scanned "bar" "Chocolatey" "1" (Some "bar")] in
  let m := @machine_of choco_host tt objs in
  let outcome := @check_all_updates choco_host [0; 1] m in
  fst outcome = Val 1
  /\ same_key (objects m 0) (objects (snd outcome) 0)
  /\ objects (snd outcome) 2 = objects m 2.
Proof.
  intros objs m outcome.
  assert (Hfst : fst outcome = Val 1) by (vm_compute; reflexivity).
  pose proof (@check_all_updates_frame choco_host [0; 1] m (snd outcome)
                (Val 1) (pair_of_fst _ Hfst)) as Hframe.
  split; [exact Hfst|]. split; [apply (Hframe 0)|].
  apply (Hframe 2). simpl. intros [H|[H|[]]]; discriminate.
Defined.

(** [winget upgrade] lists Git and not Edge. *)
Lemma registry_check_decides_witness :
  let objs := [scanned "Git" "Registry" "2.44.0" None;
               scanned "Edge" "Registry" "120" None] in
  let m := @machine_of winget_upgrade_host tt objs in
  let outcome := @_check_registry_updates winget_upgrade_host [0; 1] m in
  fst outcome = Val 1
  /\ (forall r, In r [0; 1] -> decided (objects (snd outcome) r))
  /\ 1 <= 2.
Proof.
  intros objs m outcome.
  assert (Hfst : fst outcome = Val 1) by (vm_compute; reflexivity).
  split; [exact Hfst|].
  apply (@registry_check_decides winget_upgrade_host [0; 1] m (snd outcome) 1
           (pair_of_fst _ Hfst)).
Defined.

(** The three listing commands print an error text. *)
Lemma unparsable_listing_witness :
  let host := broken_listing_host in
  let out := "npm ERR! code EUSAGE" in
  let m := @machine_of host tt [scanned "foo" "NPM" "1.0.0" (Some "foo")] in
  @json_loads host out = None
  /\ fst (@_check_npm_updates host [0] m) = Val 0
  /\ fst (@_check_pnpm_updates host [0] m) = Val 0
  /\ fst (@_check_pip_updates host [0] m) = Val 0.
Proof.
  intros host out m.
  assert (Hjson : @json_loads host out = None) by reflexivity.
  assert (Hnpm : fst (@run_command host ["npm"; "outdated"; "-g"; "--json"]
                        default_timeout true false m) = Val (Some out))
    by (vm_compute; reflexivity).
  assert (Hpnpm : fst (@run_command host ["pnpm"; "outdated"; "-g"; "--json"]
                         default_timeout true false m) = Val (Some out))
    by (vm_compute; reflexivity).
  assert (Hpip : fst (@run_command host
                        [@sys_executable host; "-m"; "pip"; "list"; "--outdated";
                         "--format=json"]
                        default_timeout true false m) = Val (Some out))
    by (vm_compute; reflexivity).
  split; [exact Hjson|].
  split; [|split].
  - destruct (@unparsable_listing_gives_no_update host [0] m
                (snd (@run_command host ["npm"; "outdated"; "-g"; "--json"]
                        default_timeout true false m)) out Hjson)
      as (H & _ & _).
    destruct (H (pair_of_fst _ Hnpm)) as [Hrun _]. now rewrite Hrun.
  - destruct (@unparsable_listing_gives_no_update host [0] m
                (snd (@run_command host ["pnpm"; "outdated"; "-g"; "--json"]
                        default_timeout true false m)) out Hjson)
      as (_ & H & _).
    destruct (H (pair_of_fst _ Hpnpm)) as [Hrun _]. now rewrite Hrun.
  - destruct (@unparsable_listing_gives_no_update host [0] m
                (snd (@run_command host
                        [@sys_executable host; "-m"; "pip"; "list";
                         "--outdated"; "--format=json"]
                        default_timeout true false m)) out Hjson)
      as (_ & _ & H).
    destruct (H (pair_of_fst _ Hpip)) as [Hrun _]. now rewrite Hrun.
Defined.

(** An NPM package whose installation succeeds, and a registry item,
    for which there is no command. *)
Lemma real_run_reports_each_item_witness :
  let objs := [mkAppInfo "foo" "NPM" "1.0.0" "2.0.0" (Some "foo")
                         UPDATE_AVAILABLE None None 0%Z;
               scanned "Edge" "Registry" "120" None] in
  let m := @machine_of npm_install_host tt objs in
  let outcome := @execute_updates npm_install_host [0; 1] false m in
  fst outcome = Val tt
  /\ objects (snd outcome) = objects m
  /\ length (commands (snd outcome)) <= length (commands m) + 2
  /\ exists lines,
      console (snd outcome) =
      console m ++ lines
        ++ [CompletedLine (length (filter is_updated lines)) 2]
      /\ Forall2 (line_of (objects m)) [0; 1] lines.
Proof.
  intros objs m outcome.
  assert (Hfst : fst outcome = Val tt) by (vm_compute; reflexivity).
  split; [exact Hfst|].
  apply (@real_run_reports_each_item npm_install_host [0; 1] m (snd outcome)
           (pair_of_fst _ Hfst)).
Defined.

(** A listing of two packages and a line that is none. *)
Lemma scan_chocolatey_items_witness :
  let host := choco_list_host in
  let m := @machine_of host tt [] in
  let outcome := @scan_chocolatey host (fixed_clock 7%Z) m in
  let apps := [mkAppInfo "git" "Chocolatey" "2.44.0" "" (Some "git") UNKNOWN
                         None None 7%Z;
               mkAppInfo "nodejs" "Chocolatey" "20.1.0" "" (Some "nodejs")
                         UNKNOWN None None 7%Z] in
  fst outcome = Val apps
  /\ objects (snd outcome) = objects m
  /\ Forall (fun a => fresh_item "Chocolatey" a
                      /\ trimmed (name a) /\ trimmed (version a)
                      /\ app_id a = Some (name a) /\ install_path a = None)
            apps.
Proof.
  intros host m outcome apps.
  assert (Hfst : fst outcome = Val apps) by (vm_compute; reflexivity).
  split; [exact Hfst|].
  apply (@scan_chocolatey_items host (fixed_clock 7%Z) m (snd outcome) apps
           (pair_of_fst _ Hfst)).
Defined.

(** A table of two rows, of which one has no version. *)
Lemma scan_winget_items_witness :
  let host := winget_list_host in
  let m := @machine_of host tt [] in
  let outcome := @scan_winget host (fixed_clock 7%Z) m in
  let apps := [mkAppInfo "Git" "Winget" "2.44.0" "" (Some "Git.Git") UNKNOWN
                         None None 7%Z] in
  fst outcome = Val apps
  /\ objects (snd outcome) = objects m
  /\ Forall (fun a => fresh_item "Winget" a
                      /\ trimmed (name a) /\ trimmed (version a)
                      /\ (exists i, app_id a = Some i /\ trimmed i)
                      /\ install_path a = None)
            apps.
Proof.
  intros host m outcome apps.
  assert (Hfst : fst outcome = Val apps) by (vm_compute; reflexivity).
  split; [exact Hfst|].
  apply (@scan_winget_items host (fixed_clock 7%Z) m (snd outcome) apps
           (pair_of_fst _ Hfst)).
Defined.

(** Only git is found. *)
Lemma scan_path_items_witness :
  let host := git_only_host in
  let m := @machine_of host tt [] in
  let outcome := @scan_path host (fixed_clock 7%Z) m in
  let apps := [mkAppInfo "git" "PATH" "2.44.0" "" None UNKNOWN None
                         (Some "/usr/bin/git") 7%Z] in
  fst outcome = Val apps
  /\ objects (snd outcome) = objects m
  /\ subsequence (map name apps) executables
  /\ NoDup (map name apps)
  /\ Forall (fun a => fresh_item "PATH" a /\ app_id a = None
                      /\ install_path a <> None)
            apps.
Proof.
  intros host m outcome apps.
  assert (Hfst : fst outcome = Val apps) by (vm_compute; reflexivity).
  split; [exact Hfst|].
  apply (@scan_path_items host (fixed_clock 7%Z) m (snd outcome) apps
           (pair_of_fst _ Hfst)).
Defined.

(** A settings file that switches the cache off and adds a key. *)
Lemma merge_settings_by_key_witness :
  let base := [("cache", JDict [("duration_hours", JNum 2);
                                ("enabled", JBool true)]);
               ("ui", JDict [("theme", JStr "default")])] in
  let items := [("cache", JDict [("enabled", JBool false)]);
                ("extra", JNum 1)] in
  NoDup (map fst items)
  /\ _merge_settings base (JDict items)
     = (Val tt,
        [("cache", JDict [("duration_hours", JNum 2); ("enabled", JBool false)]);
         ("ui", JDict [("theme", JStr "default")]);
         ("extra", JNum 1)])
  /\ exists d,
      _merge_settings base (JDict items) = (Val tt, d)
      /\ dict_get "ui" d = dict_get "ui" base
      /\ dict_get "extra" d = Some (JNum 1).
Proof.
  intros base items.
  assert (Hnd : NoDup (map fst items)).
  { simpl. repeat (constructor; [simpl; intuition discriminate|]).
    constructor. }
  split; [exact Hnd|]. split; [reflexivity|].
  destruct (proj2 (merge_settings_by_key base (JDict items)) items eq_refl)
    as (d & Hrun & _ & Hget & Hval).
  exists d. split; [exact Hrun|]. split.
  - apply Hget. simpl. intuition discriminate.
  - apply (Hval Hnd "extra" (JNum 1)). right. now left.
Defined.

Lemma config_load_idempotent_witness :
  let settings := [("cache", JDict [("duration_hours", JNum 2);
                                    ("enabled", JBool true)]);
                   ("ui", JDict [("theme", JStr "default")])] in
  let loaded := JDict [("cache", JDict [("enabled", JBool false)]);
                       ("extra", JNum 1)] in
  distinct_keys loaded
  /\ config_load (Document loaded) (config_load (Document loaded) settings)
     = config_load (Document loaded) settings.
Proof.
  intros settings loaded.
  assert (Hd : distinct_keys loaded).
  { simpl. repeat split;
      repeat (constructor; [simpl; intuition discriminate|]); constructor. }
  split; [exact Hd|].
  apply config_load_idempotent. intros l H. inversion H. exact Hd.
Defined.

(** A machine without package managers and without network, holding a
    Winget package, python and git of the PATH probe, and a registry
    item. *)
Lemma check_all_updates_silent_witness :
  let objs := [scanned "foo" "Winget" "1.0" (Some "foo");
               scanned "python" "PATH" "Python 3.12.1" None;
               scanned "git" "PATH" "2.44.0" None;
               scanned "Edge" "Registry" "120" None] in
  let m := @machine_of silent_host tt objs in
  let apps := [0; 1; 2; 3] in
  (forall w argv timeout,
      fst (@spawn silent_host w argv timeout) = FileNotFoundError)
  /\ (forall w url, fst (@urlopen silent_host w url) = None)
  /\ map (fun r => update_status (reconcile (silent_check (objects m r)))) apps
     = [UP_TO_DATE; UP_TO_DATE; UNKNOWN; UP_TO_DATE]
  /\ latest_version (reconcile (silent_check (objects m 1))) = "3.12.1"
  /\ exists m',
      @check_all_updates silent_host apps m = (Val 0, m')
      /\ forall r, In r apps ->
                   objects m' r = reconcile (silent_check (objects m r)).
Proof.
  intros objs m apps.
  assert (Hc : forall w argv timeout,
             fst (@spawn silent_host w argv timeout) = FileNotFoundError)
    by (intros; reflexivity).
  assert (Hn : forall w url, fst (@urlopen silent_host w url) = None)
    by (intros; reflexivity).
  split; [exact Hc|]. split; [exact Hn|].
  split; [vm_compute; reflexivity|]. split; [vm_compute; reflexivity|].
  destruct (@check_all_updates_silent silent_host Hc Hn apps m)
    as (m' & Hrun & _ & Hat).
  exists m'. split; [exact Hrun|]. intros r Hin. apply (Hat r Hin).
Defined.




(** A dry run of the update of git to a version given on the command
    line. *)
Lemma handle_single_update_frame_witness :
  let objs := [scanned "node" "PATH" "20.1.0" None;
               scanned "Git" "Registry" "2.44.0" None] in
  let m := @machine_of silent_host tt objs in
  let confirm_ask := fun (w : @World silent_host) (_ : string) => (false, w) in
  let args := mkArgs "git" None (Some "2.45.1") true in
  let outcome := @_handle_single_update silent_host confirm_ask [0; 1] args m in
  fst outcome = Val [Targeting "2.45.1"]
  /\ latest_version (objects (snd outcome) 1) = "2.45.1"
  /\ commands (snd outcome) = commands m
  /\ objects (snd outcome) 0 = objects m 0.
Proof.
  intros objs m confirm_ask args outcome.
  destruct (@handle_single_update_frame silent_host confirm_ask [0; 1] args m)
    as (_ & Hdry & Hobj).
  split; [vm_compute; reflexivity|]. split; [vm_compute; reflexivity|].
  split; [apply Hdry; reflexivity|].
  destruct (Hobj 0) as [H|(v & _ & _ & _ & Hname & _)]; [exact H|].
  vm_compute in Hname. discriminate Hname.
Defined.
